(** * Synthetic usage-data generator of [setup_project.py]

    A shallow embedding of [generate_sample_data], [generate_burst_pattern]
    and [generate_cost_focused_data], with the properties of the datasets
    they produce, and of the scaffolding functions
    [create_project_structure], [create_config_files] and
    [create_startup_scripts], with their effect on the file tree.

    Conventions of the embedding.
    - The process-wide generator of Python's [random] module and the global
      NumPy generator that [DataFrame.sample] draws from are two oracle
      tapes: every call into a generator consumes one raw integer of its
      tape (0 once the tape is used up).  Statements quantify over all
      tapes, so they cover every run.
    - [datetime.now()] reads a clock holding the current reading and a tape
      of increments applied after each reading.  Naive datetimes are
      integers counting microseconds, timedeltas likewise; a record keeps
      the datetime that [isoformat()] renders.
    - Python floats are rationals: [random.random()] is [k / 2^53] and
      [round(x, 2)] is the nearest multiple of 1/100, ties to even.
    - DataFrames are objects in a heap: the functions receive and return
      references.  [to_csv] appends (path, rows) to a log of written
      files; it is taken to succeed (the directory it writes to exists and
      is writable), the file system of the generators is not modelled. *)

From Stdlib Require Import ZArith QArith Lqa Ascii String List Lia.
From stdpp Require Import base list gmap strings.
Import ListNotations.

Local Open Scope string_scope.
Local Open Scope list_scope.
Local Open Scope Z_scope.

(** ** Data model *)

(** One entry of [providers_data]. *)
Record Provider := mkProvider {
  models : list string;
  cost_input : Q;
  cost_output : Q;
  energy_factor : Q
}.

(** The dict literal of [generate_sample_data], in insertion order (the
    order [list(providers_data.keys())] yields). *)
Definition providers_data : list (string * Provider) :=
  [ ("OpenAI",
     mkProvider ["gpt-4"; "gpt-4-turbo"; "gpt-3.5-turbo"; "gpt-3.5-turbo-16k"]
                (1 # 100000) (3 # 100000) 1);
    ("Anthropic",
     mkProvider ["claude-3-opus"; "claude-3-sonnet"; "claude-3-haiku"; "claude-instant"]
                (15 # 1000000) (75 # 1000000) (12 # 10));
    ("Google",
     mkProvider ["gemini-pro"; "gemini-pro-vision"; "palm-2"; "codey"]
                (125 # 10000000) (375 # 10000000) (8 # 10));
    ("Cohere",
     mkProvider ["command"; "command-light"; "embed-english"; "embed-multilingual"]
                (1 # 1000000) (2 # 1000000) (6 # 10)) ].

Definition dict (V : Type) := list (string * V).

Definition keys {V} (d : dict V) : list string := map fst d.

Fixpoint dict_get {V} (d : dict V) (k : string) : option V :=
  match d with
  | [] => None
  | (k', v) :: d' => if String.eqb k' k then Some v else dict_get d' k
  end.

(** A row of the generated tables (the dict appended per call). *)
Record UsageRecord := mkRecord {
  provider_name : string;
  model_name : string;
  input_tokens : Z;
  output_tokens : Z;
  response_time : Q;
  timestamp : Z
}.

Definition DataFrame := list UsageRecord.

(** ** World, exceptions and the monad *)

Inductive exn := IndexError | KeyError | ValueError | DanglingReference.

Inductive result (A : Type) :=
| Ok (a : A)
| Raise (e : exn).
Arguments Ok {A} a.
Arguments Raise {A} e.

Record World := mkWorld {
  py_rng : list Z;
  np_rng : list Z;
  clock_now : Z;
  clock_ticks : list Z;
  heap : list DataFrame;
  written : list (string * DataFrame)
}.

Definition M (A : Type) := World -> result (A * World).

Definition ret {A} (a : A) : M A := fun w => Ok (a, w).

Definition bind {A B} (m : M A) (f : A -> M B) : M B :=
  fun w => match m w with
           | Ok (a, w') => f a w'
           | Raise e => Raise e
           end.

Definition raise {A} (e : exn) : M A := fun _ => Raise e.

Notation "'let!' x ':=' m 'in' k" := (bind m (fun x => k))
  (at level 10, x name, m at level 100, k at level 200).

(** [for x in xs: s = body(x, s)] with the loop-carried state [s]. *)
Fixpoint for_each {X S} (xs : list X) (body : X -> S -> M S) (s : S) : M S :=
  match xs with
  | [] => ret s
  | x :: xs' => let! s' := body x s in for_each xs' body s'
  end.

(** [range(n)]. *)
Definition range (n : Z) : list Z := map Z.of_nat (seq 0 (Z.to_nat n)).

(** ** Primitive effects *)

Definition draw_py : M Z := fun w =>
  Ok (hd 0 (py_rng w),
      mkWorld (tl (py_rng w)) (np_rng w) (clock_now w) (clock_ticks w)
              (heap w) (written w)).

Definition draw_np : M Z := fun w =>
  Ok (hd 0 (np_rng w),
      mkWorld (py_rng w) (tl (np_rng w)) (clock_now w) (clock_ticks w)
              (heap w) (written w)).

(** [datetime.now()]. *)
Definition now : M Z := fun w =>
  Ok (clock_now w,
      mkWorld (py_rng w) (np_rng w) (clock_now w + hd 0 (clock_ticks w))
              (tl (clock_ticks w)) (heap w) (written w)).

(** [random.randint(a, b)]: empty range raises [ValueError]. *)
Definition randint (a b : Z) : M Z :=
  if b <? a then raise ValueError
  else let! r := draw_py in ret (a + r mod (b - a + 1)).

(** [random.choice(seq)]: [IndexError] on an empty sequence. *)
Definition choice {A} (l : list A) : M A :=
  match l with
  | [] => raise IndexError
  | _ => let! r := draw_py in
         match l !! Z.to_nat (r mod Z.of_nat (length l)) with
         | Some x => ret x
         | None => raise IndexError
         end
  end.

Definition two53 : positive := 9007199254740992.

(** [random.random()]: a multiple of 2^-53 in [0, 1). *)
Definition random : M Q :=
  let! r := draw_py in ret (Qmake (r mod Zpos two53) two53).

(** [random.uniform(a, b)] is [a + (b - a) * random()]. *)
Definition uniform (a b : Q) : M Q :=
  let! u := random in ret (a + (b - a) * u)%Q.

(** [itertools.accumulate] on integer weights. *)
Fixpoint accumulate_from (acc : Z) (ws : list Z) : list Z :=
  match ws with
  | [] => []
  | x :: ws' => (acc + x) :: accumulate_from (acc + x) ws'
  end.
Definition accumulate (ws : list Z) : list Z := accumulate_from 0 ws.

(** [bisect.bisect_right(a, x, 0, hi)] on a sorted list: the number of
    entries among the first [hi] that are [<= x]. *)
Fixpoint bisect (a : list Z) (x : Q) (hi : nat) : nat :=
  match hi, a with
  | S hi', c :: a' => if Qle_bool (inject_Z c) x then S (bisect a' x hi') else O
  | _, _ => O
  end.

(** [random.choices(population, weights)] with the default [k = 1]. *)
Definition choices {A} (population : list A) (weights : list Z) : M (list A) :=
  let cum_weights := accumulate weights in
  if negb (length cum_weights =? length population)%nat then raise ValueError
  else
    match last cum_weights with
    | None => raise IndexError
    | Some total =>
        if total <=? 0 then raise ValueError
        else
          let! u := random in
          match population !! bisect cum_weights (u * inject_Z total)%Q
                                     (length population - 1)%nat with
          | Some x => ret [x]
          | None => raise IndexError
          end
    end.

(** ** Rounding *)

(** Python's [round] to an integer: nearest, ties to even. *)
Definition round_half_even (q : Q) : Z :=
  let n := Qnum q in
  let d := Zpos (Qden q) in
  let f := n / d in
  let r := n mod d in
  match 2 * r ?= d with
  | Lt => f
  | Gt => f + 1
  | Eq => if Z.even f then f else f + 1
  end.

(** [round(x, 2)]. *)
Definition round2 (x : Q) : Q := Qmake (round_half_even (x * 100)) 100.

(** ** Datetime arithmetic (microseconds) *)

Definition SECOND : Z := 1000000.
Definition MINUTE : Z := 60 * SECOND.
Definition HOUR : Z := 60 * MINUTE.
Definition DAY : Z := 24 * HOUR.

(** [timedelta(days=d, hours=h, minutes=m)]. *)
Definition timedelta (d h m : Z) : Z := d * DAY + h * HOUR + m * MINUTE.

(** [dt.replace(hour=h, minute=m, second=s)]: date and microsecond are kept. *)
Definition replace_hms (dt h m s : Z) : Z :=
  (dt / DAY) * DAY + h * HOUR + m * MINUTE + s * SECOND + dt mod SECOND.

(** [pd.date_range(start=s, end=e, freq='3D')]: [s], [s + 3 days], ... up to
    [e] inclusive. *)
Definition date_range (s e step : Z) : list Z :=
  map (fun k => s + Z.of_nat k * step) (seq 0 (Z.to_nat ((e - s) / step + 1))).

(** [sub in s] on strings. *)
Fixpoint contains (sub s : string) : bool :=
  if String.prefix sub s then true
  else match s with
       | EmptyString => false
       | String _ s' => contains sub s'
       end.

(** ** DataFrames in the heap *)

Definition loc := nat.

(** [pd.DataFrame(rows)]: a fresh object. *)
Definition df_new (rows : DataFrame) : M loc := fun w =>
  Ok (length (heap w),
      mkWorld (py_rng w) (np_rng w) (clock_now w) (clock_ticks w)
              (heap w ++ [rows]) (written w)).

Definition df_rows (l : loc) : M DataFrame := fun w =>
  match heap w !! l with
  | Some rows => Ok (rows, w)
  | None => Raise DanglingReference
  end.

(** [df.copy()]. *)
Definition df_copy (l : loc) : M loc :=
  let! rows := df_rows l in df_new rows.

(** [pd.concat(frames, ignore_index=True)]. *)
Definition pd_concat (frames : list loc) : M loc :=
  let! rows := for_each frames
                 (fun l acc => let! r := df_rows l in ret (acc ++ r)) [] in
  df_new rows.

(** [df.to_csv(path, index=False)]. *)
Definition to_csv (l : loc) (path : string) : M unit :=
  let! rows := df_rows l in
  fun w => Ok (tt, mkWorld (py_rng w) (np_rng w) (clock_now w) (clock_ticks w)
                           (heap w) (written w ++ [(path, rows)])).

(** *** [DataFrame.sample]

    pandas and NumPy are libraries outside the repository; [df_sample]
    follows their documented behaviour: the sample size is
    [round(frac * len(df))], the row positions come from the global NumPy
    generator, [choice(n, size, replace=True)] drawing each position
    independently and [choice(n, size, replace=False)] taking the first
    [size] entries of a Fisher-Yates permutation of [0 .. n-1], and the
    rows at these positions are taken in the order drawn. *)

Definition swap (x : list nat) (i j : nat) : list nat :=
  match x !! i, x !! j with
  | Some a, Some b => <[i := b]> (<[j := a]> x)
  | _, _ => x
  end.

Definition np_permutation (n : nat) : M (list nat) :=
  for_each (rev (seq 1 (n - 1)))
    (fun i x => let! r := draw_np in
                ret (swap x i (Z.to_nat (r mod Z.of_nat (S i)))))
    (seq 0 n).

Definition np_choice (n size : nat) (replace : bool) : M (list nat) :=
  if replace then
    if (n =? 0)%nat && negb (size =? 0)%nat then raise ValueError
    else for_each (seq 0 size)
           (fun _ acc => let! r := draw_np in
                         ret (acc ++ [Z.to_nat (r mod Z.of_nat n)])) []
  else
    if (n <? size)%nat then raise ValueError
    else let! p := np_permutation n in ret (take size p).

(** The sample size [round(frac * n)] of [DataFrame.sample]. *)
Definition sample_size (frac : Q) (n : nat) : nat :=
  Z.to_nat (round_half_even (frac * inject_Z (Z.of_nat n))).

(** [df.take(positions)]. *)
Definition take_rows (rows : DataFrame) (positions : list nat) : M DataFrame :=
  for_each positions
    (fun i acc => match rows !! i with
                  | Some r => ret (acc ++ [r])
                  | None => raise IndexError
                  end) [].

Definition df_sample (l : loc) (frac : Q) (replace : bool) : M loc :=
  let! rows := df_rows l in
  if negb (Qle_bool 0 frac) then raise ValueError
  else if negb replace && negb (Qle_bool frac 1) then raise ValueError
  else
    let size := sample_size frac (length rows) in
    let! positions := np_choice (length rows) size replace in
    let! sampled := take_rows rows positions in
    df_new sampled.

(** ** The generators *)

Definition hour_weights : list Z :=
  [1; 1; 1; 1; 1; 1; 2; 4; 6; 8; 8; 8; 8; 8; 8; 8; 8; 6; 4; 2; 1; 1; 1; 1].

(** Body of the inner loop of [generate_sample_data] (one API call). *)
Definition sample_call (current_date : Z) (sample_data : list UsageRecord)
  : M (list UsageRecord) :=
  let! hours := choices (range 24) hour_weights in
  match hours with
  | [] => raise IndexError
  | hour :: _ =>
    let! minute := randint 0 59 in
    let! second := randint 0 59 in
    let timestamp := replace_hms current_date hour minute second in
    let! provider := choice (keys providers_data) in
    match dict_get providers_data provider with
    | None => raise KeyError
    | Some entry =>
      let! model := choice (models entry) in
      let! input_tokens := randint 50 2000 in
      let! output_tokens := randint 20 800 in
      let! base_response_time := uniform (1 # 2) 3 in
      let! response_time :=
        (if contains "gpt-4" model || contains "claude-3-opus" model
         then let! f := uniform (3 # 2) (5 # 2) in ret (base_response_time * f)%Q
         else let! f := uniform (8 # 10) (12 # 10) in ret (base_response_time * f)%Q) in
      ret (sample_data ++
           [mkRecord provider model input_tokens output_tokens
                     (round2 response_time) timestamp])
    end
  end.

(** Body of the outer loop of [generate_sample_data] (one day). *)
Definition sample_day (start_date day : Z) (sample_data : list UsageRecord)
  : M (list UsageRecord) :=
  let current_date := start_date + timedelta day 0 0 in
  let! daily_calls := randint 5 50 in
  for_each (range daily_calls) (fun _ => sample_call current_date) sample_data.

(** Body of the inner loop of [generate_burst_pattern]. *)
Definition burst_call (burst_time : Z) (additional_data : list UsageRecord)
  : M (list UsageRecord) :=
  let! minutes := randint 0 120 in
  let timestamp := burst_time + timedelta 0 0 minutes in
  let! provider := choice ["OpenAI"; "Anthropic"] in
  let! model := choice ["gpt-4"; "claude-3-opus"] in
  let! input_tokens := randint 500 3000 in
  let! output_tokens := randint 200 1500 in
  let! response_time := uniform 2 8 in
  ret (additional_data ++
       [mkRecord provider model input_tokens output_tokens
                 (round2 response_time) timestamp]).

Definition burst_window (burst_time : Z) (additional_data : list UsageRecord)
  : M (list UsageRecord) :=
  let! calls := randint 50 100 in
  for_each (range calls) (fun _ => burst_call burst_time) additional_data.

Definition generate_burst_pattern (base_df : loc) : M loc :=
  let! burst_data := df_copy base_df in
  let! start := now in
  let! end_ := now in
  let burst_times := date_range (start - timedelta 30 0 0) end_ (3 * DAY) in
  let! additional_data := for_each burst_times burst_window [] in
  let! burst_df := df_new additional_data in
  pd_concat [burst_data; burst_df].

(** Bodies of the two loops of [generate_cost_focused_data]. *)
Definition expensive_call (expensive_data : list UsageRecord)
  : M (list UsageRecord) :=
  let! t := now in
  let! days := randint 1 30 in
  let! hours := randint 0 23 in
  let! minutes := randint 0 59 in
  let timestamp := t - timedelta days hours minutes in
  let! input_tokens := randint 1000 4000 in
  let! output_tokens := randint 500 2000 in
  let! response_time := uniform 3 10 in
  ret (expensive_data ++
       [mkRecord "OpenAI" "gpt-4" input_tokens output_tokens
                 (round2 response_time) timestamp]).

Definition efficient_call (expensive_data : list UsageRecord)
  : M (list UsageRecord) :=
  let! t := now in
  let! days := randint 1 30 in
  let! hours := randint 0 23 in
  let! minutes := randint 0 59 in
  let timestamp := t - timedelta days hours minutes in
  let! provider := choice ["Google"; "Cohere"] in
  let! model := choice ["gemini-pro"; "command-light"] in
  let! input_tokens := randint 100 800 in
  let! output_tokens := randint 50 300 in
  let! response_time := uniform (1 # 2) 2 in
  ret (expensive_data ++
       [mkRecord provider model input_tokens output_tokens
                 (round2 response_time) timestamp]).

Definition generate_cost_focused_data (base_df : loc) (providers : dict Provider)
  : M loc :=
  let! cost_data := df_copy base_df in
  let! expensive_data := for_each (range 200) (fun _ => expensive_call) [] in
  let! expensive_data := for_each (range 300) (fun _ => efficient_call) expensive_data in
  let! cost_df := df_new expensive_data in
  pd_concat [cost_data; cost_df].

(** The two resampled scenarios of the [scenarios] dict. *)
Definition heavy_usage (sample_df : loc) : M loc := df_sample sample_df 2 true.
Definition light_usage (sample_df : loc) : M loc := df_sample sample_df (3 # 10) false.

Definition scenario_path (scenario_name : string) : string :=
  ("aioptima/database/" ++ scenario_name ++ "_sample.csv")%string.

Definition generate_sample_data : M loc :=
  let! t := now in
  let start_date := t - timedelta 30 0 0 in
  let! sample_data := for_each (range 30) (sample_day start_date) [] in
  let! sample_df := df_new sample_data in
  let! _ := to_csv sample_df "aioptima/database/sample_data.csv" in
  let! heavy := heavy_usage sample_df in
  let! light := light_usage sample_df in
  let! burst := generate_burst_pattern sample_df in
  let! cost := generate_cost_focused_data sample_df providers_data in
  let scenarios := [("heavy_usage", heavy); ("light_usage", light);
                    ("burst_usage", burst); ("cost_focused", cost)] in
  let! _ := for_each scenarios
              (fun '(scenario_name, scenario_data) _ =>
                 to_csv scenario_data (scenario_path scenario_name)) tt in
  ret sample_df.

(** ** Properties of records and datasets *)

(** [model_name] is one of the models the catalog lists for [provider_name]. *)
Definition catalog_ok (r : UsageRecord) : bool :=
  match dict_get providers_data (provider_name r) with
  | Some entry => existsb (String.eqb (model_name r)) (models entry)
  | None => false
  end.

(** The two heavy pairs of the burst scenario. *)
Definition heavy_pair (r : UsageRecord) : bool :=
  (String.eqb (provider_name r) "OpenAI" && String.eqb (model_name r) "gpt-4")
  || (String.eqb (provider_name r) "Anthropic"
      && String.eqb (model_name r) "claude-3-opus").

(** A positive number with two decimal places. *)
Definition two_decimals_pos (q : Q) : Prop :=
  exists k : Z, q = Qmake k 100 /\ 0 < k.

Definition tokens_in (r : UsageRecord) (ilo ihi olo ohi : Z) : Prop :=
  ilo <= input_tokens r <= ihi /\ olo <= output_tokens r <= ohi.

Definition sum_list_Z (l : list Z) : Z := fold_right Z.add 0 l.

(** ** Weakest preconditions (total: the computation must not raise) *)

Definition wp {A} (m : M A) (post : A -> World -> Prop) (w : World) : Prop :=
  match m w with
  | Ok (a, w') => post a w'
  | Raise _ => False
  end.

Definition monotone (ticks : list Z) : Prop := Forall (fun d => 0 <= d) ticks.

(** [steps w w']: [w'] is reached from [w] by drawing from the generators
    and reading the clock only. *)
Record steps (w w' : World) : Prop := mkSteps {
  steps_heap : heap w' = heap w;
  steps_written : written w' = written w;
  steps_clock : monotone (clock_ticks w) ->
                clock_now w <= clock_now w' /\ monotone (clock_ticks w')
}.

(** [reach ext files w w']: [w'] is reached from [w] by allocating the
    frames [ext], writing [files], drawing and reading the clock. *)
Record reach (ext : list DataFrame) (files : list (string * DataFrame))
       (w w' : World) : Prop := mkReach {
  reach_heap : heap w' = heap w ++ ext;
  reach_written : written w' = written w ++ files;
  reach_clock : monotone (clock_ticks w) ->
                clock_now w <= clock_now w' /\ monotone (clock_ticks w')
}.

(** [rows] are the rows of [base] at [positions], in that order. *)
Definition rows_at (base : DataFrame) (positions : list nat)
           (rows : DataFrame) : Prop :=
  Forall2 (fun i r => base !! i = Some r) positions rows.

(** The index a position of [swap x i j] is read from. *)
Definition transpose (i j k : nat) : nat :=
  if decide (k = i) then j else if decide (k = j) then i else k.

(** What each generator promises of a record it appends. *)
Definition base_ok (r : UsageRecord) : Prop :=
  catalog_ok r = true /\ tokens_in r 50 2000 20 800 /\
  two_decimals_pos (response_time r).

Definition burst_ok (burst_time : Z) (r : UsageRecord) : Prop :=
  provider_name r ∈ ["OpenAI"; "Anthropic"] /\
  model_name r ∈ ["gpt-4"; "claude-3-opus"] /\
  tokens_in r 500 3000 200 1500 /\
  two_decimals_pos (response_time r) /\
  burst_time <= timestamp r <= burst_time + 120 * MINUTE.

(** [t] is the clock reading the record's timestamp was computed from. *)
Definition scattered (t : Z) (r : UsageRecord) : Prop :=
  t - timedelta 30 23 59 <= timestamp r <= t - timedelta 1 0 0.

Definition expensive_rec (r : UsageRecord) : Prop :=
  provider_name r = "OpenAI" /\ model_name r = "gpt-4" /\
  tokens_in r 1000 4000 500 2000 /\
  two_decimals_pos (response_time r).

Definition efficient_rec (r : UsageRecord) : Prop :=
  provider_name r ∈ ["Google"; "Cohere"] /\
  model_name r ∈ ["gemini-pro"; "command-light"] /\
  tokens_in r 100 800 50 300 /\
  two_decimals_pos (response_time r).

Definition expensive_ok (w : World) (r : UsageRecord) : Prop :=
  expensive_rec r /\ scattered (clock_now w) r.

Definition efficient_ok (w : World) (r : UsageRecord) : Prop :=
  efficient_rec r /\ scattered (clock_now w) r.

(** The five tables of one run. *)
Record Datasets := mkDatasets {
  base : DataFrame;
  heavy : DataFrame;
  light : DataFrame;
  burst : DataFrame;
  cost : DataFrame
}.

Definition all_datasets (d : Datasets) : list DataFrame :=
  [base d; heavy d; light d; burst d; cost d].

(** The files of one run, in the order they are written. *)
Definition output_files (d : Datasets) : list (string * DataFrame) :=
  [("aioptima/database/sample_data.csv", base d);
   ("aioptima/database/heavy_usage_sample.csv", heavy d);
   ("aioptima/database/light_usage_sample.csv", light d);
   ("aioptima/database/burst_usage_sample.csv", burst d);
   ("aioptima/database/cost_focused_sample.csv", cost d)].

(** [generate_sample_data], started in [w], returns the frame holding
    [base d] and has written the five tables of [d]. *)
Definition generates (w : World) (d : Datasets) : Prop :=
  exists sample_df w',
    generate_sample_data w = Ok (sample_df, w') /\
    heap w' !! sample_df = Some (base d) /\
    written w' = written w ++ output_files d.

(** [groups]: the records appended per window, [lo .. hi] of them for each
    item of [xs], each satisfying [P] of its item. *)
Definition groups_ok {X} (lo hi : Z) (P : X -> UsageRecord -> Prop)
           (xs : list X) (groups : list (list UsageRecord)) : Prop :=
  Forall2 (fun x g => lo <= Z.of_nat (length g) <= hi /\ Forall (P x) g) xs groups.

(** The tables of a run, read back from the files it wrote. *)
Definition run_datasets (w : World) : option Datasets :=
  match generate_sample_data w with
  | Ok (_, w') =>
      match drop (length (written w)) (written w') with
      | [(_, b); (_, h); (_, l); (_, bu); (_, c)] => Some (mkDatasets b h l bu c)
      | _ => None
      end
  | Raise _ => None
  end.

(** The records a derivation appended after the [n] rows of its base. *)
Definition appended (n : nat) (derived : DataFrame) : DataFrame := drop n derived.

(** ** Concrete runs *)

(** A clock stopped at a fixed reading. *)
Definition noon : Z := 1762257600000000.

(** Both generators return 0 at every call: the shortest run, with 5 calls
    on each of the 30 days (9 draws per call and one per day). *)
Definition quiet_world : World := mkWorld [] [] noon [] [] [].

(** As [quiet_world] until the first burst record (after 30 + 150 * 9
    draws), where the draws for the window size, the minute, the provider
    and the model are 0, 0, 0 and 1. *)
Definition mismatch_world : World :=
  mkWorld (repeat 0 1380 ++ [0; 0; 0; 1]) [] noon [] [] [].

(** As [quiet_world] through the base table and the 11 burst windows
    (1380 + 11 * 301 draws); the first expensive record then draws
    30 days, 1 hour and 0 minutes, and after the 200 expensive records
    (6 draws each) the first cheap record draws, after its three time
    offsets, provider 0 and model 1. *)
Definition costly_world : World :=
  mkWorld (repeat 0 4691 ++ [29; 1; 0] ++ repeat 0 1200 ++ [0; 1])
          [] noon [] [] [].

(** A heap holding one small table, for the derivations taken alone. *)
Definition three_rows : DataFrame :=
  [ mkRecord "OpenAI" "gpt-4" 50 20 (75 # 100) 0;
    mkRecord "Google" "codey" 60 30 (50 # 100) 1;
    mkRecord "Cohere" "command" 70 40 (40 # 100) 2 ].

Definition small_world : World :=
  mkWorld [] [4; 1; 7] noon [] [three_rows] [].

Definition empty_world : World := mkWorld [] [] noon [] [[]] [].

(** As [quiet_world], in a process that holds a frame, wrote a file
    before and whose stopped clock still has (zero) increments pending. *)
Definition second_world : World :=
  mkWorld [] [] noon [0; 0; 0] [three_rows] [("aioptima/.env", [])].

(** As [quiet_world], with another state of NumPy's generator. *)
Definition resampled_world : World := mkWorld [] [5] noon [] [] [].

(** ** Two runs side by side *)

(** A clock that stays at its reading. *)
Definition frozen (ticks : list Z) : Prop := Forall (fun d => d = 0) ticks.

(** The files that hold the two resampled tables. *)
Definition resampled_paths : list string :=
  [scenario_path "heavy_usage"; scenario_path "light_usage"].

(** Two written files that do not tell two runs apart: the same path
    and the same rows; when NumPy's generator is not known to be in the
    same state ([np = false]), the rows of a resampled table are left
    out of the comparison. *)
Definition same_file (np : bool) (f1 f2 : string * DataFrame) : Prop :=
  fst f1 = fst f2 /\
  (np = true \/ fst f1 ∉ resampled_paths -> snd f1 = snd f2).

(** [akin np same valid pre1 pre2 w1 w2]: the two worlds hold the same
    state of Python's generator (and of NumPy's when [np] holds) and
    their clocks are stopped at the same reading; each pair of [same]
    names a frame of the first heap and a frame of the second that hold
    the same rows, each pair of [valid] two frames that exist; the files
    written since the logs were [pre1] and [pre2] are the same in the
    sense of [same_file]. *)
Record akin (np : bool) (same valid : list (loc * loc))
       (pre1 pre2 : list (string * DataFrame)) (w1 w2 : World) : Prop := mkAkin {
  akin_py : py_rng w1 = py_rng w2;
  akin_np : np = true -> np_rng w1 = np_rng w2;
  akin_same : forall l1 l2, (l1, l2) ∈ same ->
                exists rows, heap w1 !! l1 = Some rows /\
                             heap w2 !! l2 = Some rows;
  akin_valid : forall l1 l2, (l1, l2) ∈ valid ->
                 is_Some (heap w1 !! l1) /\ is_Some (heap w2 !! l2);
  akin_now : clock_now w1 = clock_now w2;
  akin_frozen1 : frozen (clock_ticks w1);
  akin_frozen2 : frozen (clock_ticks w2);
  akin_written : exists f1 f2,
    written w1 = pre1 ++ f1 /\ written w2 = pre2 ++ f2 /\
    Forall2 (same_file np) f1 f2
}.

(** The pairs of frames known to hold the same rows, and to exist, after
    a sample has returned the pair [p]. *)
Definition same_after (np : bool) (p : loc * loc) (same : list (loc * loc))
  : list (loc * loc) := if np then p :: same else same.

Definition valid_after (np : bool) (p : loc * loc) (valid : list (loc * loc))
  : list (loc * loc) := if np then valid else p :: valid.

(** [rel R m1 m2 Q]: started in worlds related by [R], the run of [m1] in
    the first and the run of [m2] in the second return values and worlds
    related by [Q], or raise the same exception. *)
Definition rel {A} (R : World -> World -> Prop) (m1 m2 : M A)
           (Q : A -> A -> World -> World -> Prop) : Prop :=
  forall w1 w2, R w1 w2 ->
    match m1 w1, m2 w2 with
    | Ok (a1, w1'), Ok (a2, w2') => Q a1 a2 w1' w2'
    | Raise e1, Raise e2 => e1 = e2
    | _, _ => False
    end.

(** The same value in both runs, in worlds related by [R]. *)
Definition both {A} (R : World -> World -> Prop)
  : A -> A -> World -> World -> Prop :=
  fun a1 a2 w1 w2 => a1 = a2 /\ R w1 w2.

(** ** Further properties of records *)

(** The world after one more frame is allocated, and after one more
    reading of the clock. *)
Definition alloc (rows : DataFrame) (w : World) : World :=
  mkWorld (py_rng w) (np_rng w) (clock_now w) (clock_ticks w)
          (heap w ++ [rows]) (written w).

Definition tick (w : World) : World :=
  mkWorld (py_rng w) (np_rng w) (clock_now w + hd 0 (clock_ticks w))
          (tl (clock_ticks w)) (heap w) (written w).

(** The clock: its reading and the increments still to come. *)
Definition clock_of (w : World) : Z * list Z := (clock_now w, clock_ticks w).

(** The world after [k] more readings of the clock. *)
Fixpoint advance (k : nat) (w : World) : World :=
  match k with
  | O => w
  | S k' => advance k' (tick w)
  end.

(** What the clock shows at its [k]-th reading after [w], counted from 0. *)
Definition reading (w : World) (k : nat) : Z :=
  clock_now w + sum_list_Z (take k (clock_ticks w)).

(** [reads n m]: when [m] returns, it has read the clock [n] times. *)
Definition reads (n : nat) {A} (m : M A) : Prop :=
  forall w, match m w with
            | Ok (_, w') => clock_of w' = clock_of (advance n w)
            | Raise _ => True
            end.

(** The prices of the catalog, as the spec speaks of them: a provider is
    dearer than another when both its prices are higher; the costliest
    provider has none dearer, and a provider is among the two cheapest
    when it is dearer than at most one other. *)
Definition dearer (p q : Provider) : bool :=
  negb (Qle_bool (cost_input p) (cost_input q))
  && negb (Qle_bool (cost_output p) (cost_output q)).

Definition costliest (name : string) : bool :=
  match dict_get providers_data name with
  | Some p => forallb (fun q => negb (dearer (snd q) p)) providers_data
  | None => false
  end.

Definition among_two_cheapest (name : string) : bool :=
  match dict_get providers_data name with
  | Some p =>
      (length (List.filter (fun q => dearer p (snd q)) providers_data) <? 2)%nat
  | None => false
  end.

(** Midnight of the calendar day of a datetime. *)
Definition day_start (dt : Z) : Z := dt / DAY * DAY.

(** The record is stamped on the calendar day of [current_date], with the
    sub-second part of [current_date]. *)
Definition on_day (current_date : Z) (r : UsageRecord) : Prop :=
  day_start current_date <= timestamp r < day_start current_date + DAY /\
  timestamp r mod SECOND = current_date mod SECOND.

(** The test of [generate_sample_data] for a slow model. *)
Definition heavy_tier (model : string) : bool :=
  contains "gpt-4" model || contains "claude-3-opus" model.

Definition between (lo hi q : Q) : Prop := (lo <= q /\ q <= hi)%Q.

Definition base_response_ok (r : UsageRecord) : Prop :=
  if heavy_tier (model_name r)
  then between (75 # 100) (750 # 100) (response_time r)
  else between (40 # 100) (360 # 100) (response_time r).

(** All a base record of the day [current_date] satisfies. *)
Definition base_full (current_date : Z) (r : UsageRecord) : Prop :=
  base_ok r /\ on_day current_date r /\ base_response_ok r.

Definition burst_full (burst_time : Z) (r : UsageRecord) : Prop :=
  burst_ok burst_time r /\ between 2 8 (response_time r).

Definition expensive_full (r : UsageRecord) : Prop :=
  expensive_rec r /\ between 3 10 (response_time r).

Definition efficient_full (r : UsageRecord) : Prop :=
  efficient_rec r /\ between (1 # 2) 2 (response_time r).

(** The starts of the burst windows counted from the reading [t]. *)
Definition burst_starts (t : Z) : list Z :=
  map (fun k => t - timedelta 30 0 0 + Z.of_nat k * (3 * DAY)) (seq 0 11).

(** [keeps f m]: when [m] returns, the part [f] of the world is as it was. *)
Definition keeps {T A} (f : World -> T) (m : M A) : Prop :=
  forall w, match m w with
            | Ok (_, w') => f w' = f w
            | Raise _ => True
            end.

(** What the resampling leaves alone. *)
Definition python_side (w : World)
  : list Z * Z * list Z * list (string * DataFrame) :=
  (py_rng w, clock_now w, clock_ticks w, written w).

(** How the tables of a run are made up. *)
Record run_facts (w : World) (d : Datasets) : Prop := mkRunFacts {
  base_days : exists groups,
    base d = concat groups /\
    groups_ok 5 50 (fun _ : Z => base_ok) (range 30) groups;
  heavy_rows : exists positions,
    rows_at (base d) positions (heavy d) /\
    length positions = sample_size 2 (length (base d));
  light_rows : exists positions,
    rows_at (base d) positions (light d) /\
    length positions = sample_size (3 # 10) (length (base d)) /\
    NoDup positions;
  burst_rows : exists start end_ groups,
    burst d = base d ++ concat groups /\
    groups_ok 50 100 burst_ok
      (date_range (start - timedelta 30 0 0) end_ (3 * DAY)) groups;
  cost_rows : exists expensive efficient,
    cost d = base d ++ expensive ++ efficient /\
    length expensive = 200%nat /\ length efficient = 300%nat /\
    Forall expensive_rec expensive /\ Forall efficient_rec efficient
}.

(** ** The file system of the scaffolding functions

    [os.makedirs], [open(..., 'w')] with [write], and [os.chmod] act on a
    tree of directories and regular files; they are operating-system code
    outside the repository, modelled from their documented behaviour.
    Paths are relative to the working directory, which always exists, and
    are kept as their lists of components.  A regular file has a content
    (the text written, in UTF-8) and a mode.  The process owns the files
    and is not privileged, so an existing file can be opened for writing
    only when the owner-write bit of its mode is set.  Directories are
    taken to be searchable and writable by the process: their modes are
    not tracked.  Failures of the device (a full disk, an I/O error) are
    outside the model.  [print] is left out. *)

Inductive os_error :=
  FileExistsError | FileNotFoundError | NotADirectoryError | IsADirectoryError
| PermissionError.

Inductive os_result (A : Type) :=
| Done (a : A)
| Fails (e : os_error).
Arguments Done {A} a.
Arguments Fails {A} e.

Inductive node :=
| Dir
| File (content : string) (mode : Z).

Definition path := list string.

Record FileSystem := mkFS {
  nodes : gmap path node;
  umask : Z
}.

(** What is at a path; the working directory is a directory. *)
Definition kind (fs : FileSystem) (p : path) : option node :=
  match p with
  | [] => Some Dir
  | _ => nodes fs !! p
  end.

Definition parent (p : path) : path := removelast p.

Definition put (p : path) (n : node) (fs : FileSystem) : FileSystem :=
  mkFS (<[p := n]> (nodes fs)) (umask fs).

(** The components of a path written with slashes. *)
Fixpoint split_path_from (cur : string) (s : string) : path :=
  match s with
  | EmptyString => [cur]
  | String c s' =>
      if Ascii.eqb c "/"%char then cur :: split_path_from EmptyString s'
      else split_path_from (cur ++ String c EmptyString)%string s'
  end.

Definition split_path (name : string) : path := split_path_from EmptyString name.

(** [os.mkdir(p)]. *)
Definition os_mkdir (p : path) (fs : FileSystem) : os_result FileSystem :=
  match kind fs p with
  | Some _ => Fails FileExistsError
  | None =>
      match kind fs (parent p) with
      | Some Dir => Done (put p Dir fs)
      | Some (File _ _) => Fails NotADirectoryError
      | None => Fails FileNotFoundError
      end
  end.

Definition is_dir (fs : FileSystem) (p : path) : bool :=
  match kind fs p with
  | Some Dir => true
  | _ => false
  end.

(** [os.makedirs(name, exist_ok=...)] on the reversed components of
    [name]: a missing head is made first (a [FileExistsError] there is
    passed over), then the leaf; an error of the leaf is dropped when
    [exist_ok] holds and the leaf is a directory. *)
Fixpoint makedirs_rev (rp : list string) (exist_ok : bool) (fs : FileSystem)
  : os_result FileSystem :=
  match rp with
  | [] => Fails FileNotFoundError
  | tail :: rhead =>
      let made :=
        match rhead, kind fs (rev rhead) with
        | _ :: _, None =>
            match makedirs_rev rhead exist_ok fs with
            | Fails FileExistsError => Done fs
            | r => r
            end
        | _, _ => Done fs
        end in
      match made with
      | Fails e => Fails e
      | Done fs1 =>
          match os_mkdir (rev (tail :: rhead)) fs1 with
          | Done fs2 => Done fs2
          | Fails e =>
              if exist_ok && is_dir fs1 (rev (tail :: rhead)) then Done fs1
              else Fails e
          end
      end
  end.

Definition makedirs (name : string) (exist_ok : bool) (fs : FileSystem)
  : os_result FileSystem :=
  makedirs_rev (rev (split_path name)) exist_ok fs.

(** The mode of a file that [open] creates. *)
Definition creation_mode (fs : FileSystem) : Z := Z.land 438 (Z.lnot (umask fs)).

(** The owner-write bit (0o200) of a mode. *)
Definition writable (mode : Z) : bool := Z.testbit mode 7.

(** [with open(name, 'w') as f: f.write(content)]: the file is created,
    or truncated when the process may write it, then written. *)
Definition open_write (name content : string) (fs : FileSystem)
  : os_result FileSystem :=
  let p := split_path name in
  match kind fs p with
  | Some Dir => Fails IsADirectoryError
  | Some (File _ mode) =>
      if writable mode then Done (put p (File content mode) fs)
      else Fails PermissionError
  | None =>
      match kind fs (parent p) with
      | Some Dir => Done (put p (File content (creation_mode fs)) fs)
      | Some (File _ _) => Fails NotADirectoryError
      | None => Fails FileNotFoundError
      end
  end.

(** [os.chmod(name, mode)]. *)
Definition chmod (name : string) (mode : Z) (fs : FileSystem)
  : os_result FileSystem :=
  let p := split_path name in
  match kind fs p with
  | None => Fails FileNotFoundError
  | Some Dir => Done fs
  | Some (File content _) => Done (put p (File content mode) fs)
  end.

(** Sequencing, and [for x in xs: body(x)]. *)
Definition and_then (r : os_result FileSystem)
           (k : FileSystem -> os_result FileSystem) : os_result FileSystem :=
  match r with
  | Done fs => k fs
  | Fails e => Fails e
  end.

Fixpoint os_for_each {X} (xs : list X) (body : X -> FileSystem -> os_result FileSystem)
         (fs : FileSystem) : os_result FileSystem :=
  match xs with
  | [] => Done fs
  | x :: xs' => and_then (body x fs) (os_for_each xs' body)
  end.

(** The double quote, and the texts the functions write. *)
Definition dq : string := String "034"%char EmptyString.

Definition directories : list string :=
  [ "aioptima";
    "aioptima/backend";
    "aioptima/backend/models";
    "aioptima/backend/api";
    "aioptima/backend/services";
    "aioptima/frontend";
    "aioptima/database";
    "aioptima/config";
    "aioptima/tests";
    "aioptima/docs";
    "aioptima/scripts" ].

Definition init_files : list string :=
  [ "aioptima/__init__.py";
    "aioptima/backend/__init__.py";
    "aioptima/backend/models/__init__.py";
    "aioptima/backend/api/__init__.py";
    "aioptima/backend/services/__init__.py";
    "aioptima/tests/__init__.py" ].

Definition package_marker : string :=
  (dq ++ dq ++ dq ++ "AIOptima package" ++ dq ++ dq ++ dq ++ "
")%string.

Definition env_config : string :=
  ("# AIOptima Environment Configuration
# Database
DATABASE_URL=sqlite:///./database/aioptima.db

# API Configuration
API_HOST=0.0.0.0
API_PORT=8000
SECRET_KEY=your-secret-key-change-this-in-production

# Dashboard Configuration
DASHBOARD_PORT=8501

# Energy Calculation
CARBON_INTENSITY=0.5  # kg CO2 per kWh
ENERGY_EFFICIENCY_FACTOR=1.0

# Provider API Keys (optional - for real-time monitoring)
OPENAI_API_KEY=your-openai-key
ANTHROPIC_API_KEY=your-anthropic-key
GOOGLE_API_KEY=your-google-key
")%string.

Definition dockerfile : string :=
  ("FROM python:3.11-slim

WORKDIR /app

COPY requirements.txt .
RUN pip install --no-cache-dir -r requirements.txt

COPY . .

EXPOSE 8000 8501

# Create startup script
RUN echo '#!/bin/bash\n\
uvicorn backend.main:app --host 0.0.0.0 --port 8000 &\n\
streamlit run frontend/dashboard.py --server.port 8501 --server.address 0.0.0.0\n\
wait' > start.sh && chmod +x start.sh

CMD [" ++ dq ++ "./start.sh" ++ dq ++ "]
")%string.

Definition docker_compose : string :=
  ("version: '3.8'

services:
  aioptima:
    build: .
    ports:
      - " ++ dq ++ "8000:8000" ++ dq ++ "  # Backend API
      - " ++ dq ++ "8501:8501" ++ dq ++ "  # Streamlit Dashboard
    volumes:
      - ./database:/app/database
      - ./.env:/app/.env
    environment:
      - PYTHONPATH=/app
")%string.

Definition start_backend : string :=
  ("#!/bin/bash
echo " ++ dq ++ "🚀 Starting AIOptima Backend..." ++ dq ++ "
cd backend
python -m uvicorn main:app --reload --host 0.0.0.0 --port 8000
")%string.

Definition start_dashboard : string :=
  ("#!/bin/bash
echo " ++ dq ++ "📊 Starting AIOptima Dashboard..." ++ dq ++ "
cd frontend
streamlit run dashboard.py --server.port 8501
")%string.

Definition start_all : string :=
  ("#!/bin/bash
echo " ++ dq ++ "🤖 Starting AIOptima Complete System..." ++ dq ++ "

# Start backend in background
echo " ++ dq ++ "Starting backend..." ++ dq ++ "
cd backend && python -m uvicorn main:app --reload --host 0.0.0.0 --port 8000 &
BACKEND_PID=$!

# Wait a moment for backend to start
sleep 5

# Start dashboard
echo " ++ dq ++ "Starting dashboard..." ++ dq ++ "
cd ../frontend && streamlit run dashboard.py --server.port 8501 &
DASHBOARD_PID=$!

echo " ++ dq ++ "✅ AIOptima is running!" ++ dq ++ "
echo " ++ dq ++ "   Backend API: http://localhost:8000" ++ dq ++ "
echo " ++ dq ++ "   Dashboard: http://localhost:8501" ++ dq ++ "
echo " ++ dq ++ dq ++ "
echo " ++ dq ++ "Press Ctrl+C to stop all services" ++ dq ++ "

# Wait for interrupt
trap " ++ dq ++ "kill $BACKEND_PID $DASHBOARD_PID; exit" ++ dq ++ " INT
wait
")%string.

Definition create_project_structure (fs : FileSystem) : os_result FileSystem :=
  and_then (os_for_each directories (fun directory => makedirs directory true) fs)
    (os_for_each init_files (fun init_file => open_write init_file package_marker)).

Definition create_config_files (fs : FileSystem) : os_result FileSystem :=
  and_then (open_write "aioptima/.env" env_config fs) (fun fs =>
  and_then (open_write "aioptima/Dockerfile" dockerfile fs) (fun fs =>
  open_write "aioptima/docker-compose.yml" docker_compose fs)).

Definition create_startup_scripts (fs : FileSystem) : os_result FileSystem :=
  and_then (open_write "aioptima/start_backend.sh" start_backend fs) (fun fs =>
  and_then (chmod "aioptima/start_backend.sh" 493 fs) (fun fs =>
  and_then (open_write "aioptima/start_dashboard.sh" start_dashboard fs) (fun fs =>
  and_then (chmod "aioptima/start_dashboard.sh" 493 fs) (fun fs =>
  and_then (open_write "aioptima/start_all.sh" start_all fs) (fun fs =>
  chmod "aioptima/start_all.sh" 493 fs))))).


(** The paths of the ancestors of [p] below the working directory, and
    [p] itself. *)
Fixpoint prefixes_from (pre p : path) : list path :=
  match p with
  | [] => []
  | c :: p' => (pre ++ [c]) :: prefixes_from (pre ++ [c]) p'
  end.

Definition prefixes (p : path) : list path := prefixes_from [] p.

(** Every node hangs below a directory. *)
Definition well_formed (fs : FileSystem) : Prop :=
  forall p n, nodes fs !! p = Some n -> p <> [] /\ kind fs (parent p) = Some Dir.




(** Nothing but the working directory. *)
Definition empty_fs : FileSystem := mkFS ∅ 18.



Definition paths_of (files : list (string * string)) : list path :=
  map (fun f => split_path (fst f)) files.

(** The text that [files] puts at [q], if any. *)
Fixpoint text_at (files : list (string * string)) (q : path) : option string :=
  match files with
  | [] => None
  | f :: rest =>
      if bool_decide (split_path (fst f) = q) then Some (snd f)
      else text_at rest q
  end.



(** A tree in which [aioptima] is a regular file. *)
Definition blocked_fs : FileSystem :=
  mkFS (<[ ["aioptima"] := File "notes" 420 ]> ∅) 18.


(** The error of opening a file below [aioptima] when that is no
    directory. *)
Definition missing_directory_error (fs : FileSystem) : os_error :=
  match nodes fs !! ["aioptima"] with
  | None => FileNotFoundError
  | Some _ => NotADirectoryError
  end.

(** * Proofs *)

(** ** Rules of the program logic *)

Lemma wp_ret {A} (a : A) post w : post a w -> wp (ret a) post w.
Proof. intros H; exact H. Qed.

Lemma wp_bind {A B} (m : M A) (f : A -> M B) post w :
  wp m (fun a w' => wp (f a) post w') w -> wp (bind m f) post w.
Proof.
  unfold wp, bind. destruct (m w) as [[a w']|e]; auto.
Qed.

Lemma wp_mono {A} (m : M A) (post post' : A -> World -> Prop) w :
  wp m post w -> (forall a w', post a w' -> post' a w') -> wp m post' w.
Proof.
  unfold wp. destruct (m w) as [[a w']|e]; auto.
Qed.

Lemma wp_ok {A} (m : M A) post w :
  wp m post w <-> exists a w', m w = Ok (a, w') /\ post a w'.
Proof.
  unfold wp. split.
  - destruct (m w) as [[a w']|e]; [eauto | tauto].
  - intros (a & w' & -> & H). exact H.
Qed.

(** Loop rule: the invariant is indexed by the items already processed. *)
Lemma wp_for_each_from {X S} (I : list X -> S -> World -> Prop)
      (body : X -> S -> M S) (xs done : list X) s w :
  I done s w ->
  (forall done x s w, I done s w ->
      wp (body x s) (fun s' w' => I (done ++ [x]) s' w') w) ->
  wp (for_each xs body s) (fun s' w' => I (done ++ xs) s' w') w.
Proof.
  intros H0 Hbody. revert done s w H0.
  induction xs as [|x xs IH]; intros done s w H0; simpl.
  - rewrite app_nil_r. apply wp_ret, H0.
  - apply wp_bind. eapply wp_mono; [apply Hbody, H0|].
    intros s' w' H'; simpl in H'.
    replace (done ++ x :: xs) with ((done ++ [x]) ++ xs)
      by (rewrite <- app_assoc; reflexivity).
    apply IH, H'.
Qed.

Lemma wp_for_each {X S} (I : list X -> S -> World -> Prop)
      (body : X -> S -> M S) (xs : list X) s w :
  I [] s w ->
  (forall done x s w, I done s w ->
      wp (body x s) (fun s' w' => I (done ++ [x]) s' w') w) ->
  wp (for_each xs body s) (fun s' w' => I xs s' w') w.
Proof. intros H0 Hb. apply (wp_for_each_from I body xs [] s w H0 Hb). Qed.

(** ** [steps] is a preorder preserved by the primitives *)

Lemma steps_refl w : steps w w.
Proof. split; auto. intros H; split; [lia | exact H]. Qed.

Lemma steps_trans w1 w2 w3 : steps w1 w2 -> steps w2 w3 -> steps w1 w3.
Proof.
  intros [h1 f1 c1] [h2 f2 c2]. split; try congruence.
  intros Hm. destruct (c1 Hm) as [Hle Hm2]. destruct (c2 Hm2) as [Hle2 Hm3].
  split; [lia | exact Hm3].
Qed.

Lemma monotone_tl ticks : monotone ticks -> 0 <= hd 0 ticks /\ monotone (tl ticks).
Proof.
  unfold monotone. destruct ticks as [|d ticks]; simpl; intros H.
  - split; [lia | constructor].
  - inversion H; subst; auto.
Qed.

Lemma wp_draw_py post w :
  (forall r w', steps w w' -> post r w') -> wp draw_py post w.
Proof.
  intros H. unfold wp, draw_py. apply H. split; simpl; auto.
  intros Hm; split; [lia | exact Hm].
Qed.

Lemma wp_draw_np post w :
  (forall r w', steps w w' -> post r w') -> wp draw_np post w.
Proof.
  intros H. unfold wp, draw_np. apply H. split; simpl; auto.
  intros Hm; split; [lia | exact Hm].
Qed.

Lemma wp_now post w :
  (forall w', steps w w' -> post (clock_now w) w') -> wp now post w.
Proof.
  intros H. unfold wp, now. apply H. split; simpl; auto.
  intros Hm. destruct (monotone_tl _ Hm). split; [lia | assumption].
Qed.

Lemma wp_randint a b post w :
  a <= b ->
  (forall v w', a <= v <= b -> steps w w' -> post v w') ->
  wp (randint a b) post w.
Proof.
  intros Hab H. unfold randint.
  destruct (Z.ltb_spec b a) as [Hlt|_]; [lia|].
  apply wp_bind, wp_draw_py. intros r w' Hs. apply wp_ret, H; [|exact Hs].
  pose proof (Z.mod_pos_bound r (b - a + 1)). lia.
Qed.

Lemma wp_choice {A} (l : list A) post w :
  l <> [] ->
  (forall x w', x ∈ l -> steps w w' -> post x w') ->
  wp (choice l) post w.
Proof.
  intros Hne H. unfold choice. destruct l as [|x0 l0] eqn:El; [congruence|].
  rewrite <- El in *. apply wp_bind, wp_draw_py. intros r w' Hs.
  assert (Hlen : 0 < Z.of_nat (length l)) by (subst l; simpl; lia).
  pose proof (Z.mod_pos_bound r _ Hlen) as Hb.
  destruct (lookup_lt_is_Some_2 l (Z.to_nat (r mod Z.of_nat (length l))))
    as [x Hx]; [lia|].
  rewrite Hx. apply wp_ret, H; [|exact Hs].
  apply list_elem_of_lookup; eauto.
Qed.

Lemma random_range r :
  (0 <= Qmake (r mod Zpos two53) two53 /\ Qmake (r mod Zpos two53) two53 <= 1)%Q.
Proof.
  pose proof (Z.mod_pos_bound r (Zpos two53) eq_refl) as Hb.
  unfold Qle; simpl. lia.
Qed.

Lemma wp_random post w :
  (forall u w', (0 <= u /\ u <= 1)%Q -> steps w w' -> post u w') ->
  wp random post w.
Proof.
  intros H. unfold random. apply wp_bind, wp_draw_py. intros r w' Hs.
  apply wp_ret, H; [apply random_range | exact Hs].
Qed.

Lemma wp_uniform a b post w :
  (a <= b)%Q ->
  (forall v w', (a <= v /\ v <= b)%Q -> steps w w' -> post v w') ->
  wp (uniform a b) post w.
Proof.
  intros Hab H. unfold uniform. apply wp_bind, wp_random. intros u w' [Hu0 Hu1] Hs.
  apply wp_ret, H; [|exact Hs]. split; nra.
Qed.

Lemma bisect_le a x hi : (bisect a x hi <= hi)%nat.
Proof.
  revert a; induction hi as [|hi IH]; intros [|c a]; simpl; try lia.
  destruct (Qle_bool _ _); [|lia].
  specialize (IH a). lia.
Qed.

Lemma wp_choices {A} (population : list A) weights total post w :
  length (accumulate weights) = length population ->
  last (accumulate weights) = Some total ->
  0 < total ->
  (forall x w', x ∈ population -> steps w w' -> post [x] w') ->
  wp (choices population weights) post w.
Proof.
  intros Hlen Hlast Htot H. unfold choices.
  rewrite Hlen, Nat.eqb_refl, Hlast; simpl.
  destruct (Z.leb_spec total 0) as [?|_]; [lia|].
  apply wp_bind, wp_random. intros u w' _ Hs.
  set (i := bisect _ _ _).
  assert (Hi : (i < length population)%nat).
  { pose proof (bisect_le (accumulate weights) (u * inject_Z total)%Q
                          (length population - 1)) as Hb.
    fold i in Hb. destruct population; simpl in *; [|lia].
    destruct (accumulate weights); simpl in *; congruence. }
  destruct (lookup_lt_is_Some_2 _ _ Hi) as [x Hx]. rewrite Hx.
  apply wp_ret, H; [|exact Hs]. apply list_elem_of_lookup; eauto.
Qed.

Ltac chain :=
  repeat match goal with
  | H1 : steps ?a ?b, H2 : steps ?b ?c |- _ =>
      let H := fresh "Hs" in
      pose proof (steps_trans a b c H1 H2) as H; clear H1 H2
  end.

Ltac wp_go :=
  repeat lazymatch goal with
  | |- wp (bind _ _) _ _ => apply wp_bind
  | |- wp (ret _) _ _ => apply wp_ret
  | |- wp (randint _ _) _ _ => apply wp_randint; [lia | intros ? ? ? ?]; chain
  | |- wp (choice _) _ _ => apply wp_choice; [discriminate | intros ? ? ? ?]; chain
  | |- wp (uniform _ _) _ _ =>
      apply wp_uniform; [unfold Qle; simpl; lia | intros ? ? [? ?] ?]; chain
  | |- wp now _ _ => apply wp_now; intros ? ?; chain
  end.

(** ** Rounding *)

Lemma round_half_even_floor q : Qnum q / Zpos (Qden q) <= round_half_even q.
Proof.
  unfold round_half_even.
  destruct (2 * (Qnum q mod Zpos (Qden q)) ?= Zpos (Qden q)); try lia.
  destruct (Z.even _); lia.
Qed.

Lemma round2_pos x : (1 # 100 <= x)%Q -> two_decimals_pos (round2 x).
Proof.
  intros Hx. exists (round_half_even (x * 100)). split; [reflexivity|].
  pose proof (round_half_even_floor (x * 100)) as Hf.
  assert (1 <= Qnum (x * 100) / Zpos (Qden (x * 100))); [|lia].
  apply Z.div_le_lower_bound; [lia|].
  unfold Qle in Hx. destruct x as [n d]; simpl in *. lia.
Qed.

(** ** Loops that append records *)

(** A loop whose body appends one record described by [P] (which may
    refer to the world the body started in). *)
Lemma wp_calls {X} (P : World -> UsageRecord -> Prop)
      (body : list UsageRecord -> M (list UsageRecord)) (xs : list X) acc w :
  (forall acc w, wp (body acc)
     (fun acc' w' => exists r, acc' = acc ++ [r] /\ steps w w' /\ P w r) w) ->
  wp (for_each xs (fun _ => body) acc)
     (fun acc' w' => exists rs,
        acc' = acc ++ rs /\ length rs = length xs /\ steps w w' /\
        Forall (fun r => exists wi, steps w wi /\ steps wi w' /\ P wi r) rs) w.
Proof.
  intros Hbody.
  eapply wp_mono.
  - apply (wp_for_each
      (fun done acc' w' => exists rs,
         acc' = acc ++ rs /\ length rs = length done /\ steps w w' /\
         Forall (fun r => exists wi, steps w wi /\ steps wi w' /\ P wi r) rs)).
    + exists []. rewrite app_nil_r.
      split_and!; auto using steps_refl.
    + intros done x acc1 w1 (rs & -> & Hlen & Hs & Hall).
      eapply wp_mono; [apply Hbody|]. simpl.
      intros acc2 w2 (r & -> & Hs2 & Hr). exists (rs ++ [r]).
      rewrite <- app_assoc, !length_app, Hlen. simpl.
      split_and!; eauto using steps_trans.
      apply Forall_app; split.
      * eapply Forall_impl; [exact Hall|]. simpl.
        intros r0 (wi & ? & ? & ?). exists wi. eauto using steps_trans.
      * constructor; [|constructor]. exists w1. auto.
  - simpl. auto.
Qed.

(** A loop over windows: each draws a count in [lo, hi] and runs that many
    calls. *)
Lemma wp_windows {X} (lo hi : Z) (P : X -> UsageRecord -> Prop)
      (call : X -> list UsageRecord -> M (list UsageRecord)) (xs : list X) acc w :
  0 <= lo <= hi ->
  (forall x acc w, wp (call x acc)
     (fun acc' w' => exists r, acc' = acc ++ [r] /\ steps w w' /\ P x r) w) ->
  wp (for_each xs
        (fun x acc => let! n := randint lo hi in
                      for_each (range n) (fun _ => call x) acc) acc)
     (fun acc' w' => exists groups,
        acc' = acc ++ concat groups /\ groups_ok lo hi P xs groups /\
        steps w w') w.
Proof.
  intros Hlh Hcall.
  eapply wp_mono.
  - apply (wp_for_each
      (fun done acc' w' => exists groups,
         acc' = acc ++ concat groups /\ groups_ok lo hi P done groups /\
         steps w w')).
    + exists []. simpl. rewrite app_nil_r.
      split_and!; auto using steps_refl. constructor.
    + intros done x acc1 w1 (groups & -> & Hg & Hs).
      apply wp_bind, wp_randint; [lia|]. intros n w2 Hn Hs2.
      eapply wp_mono; [apply (wp_calls (fun _ => P x)), Hcall|]. simpl.
      intros acc2 w3 (rs & -> & Hlen & Hs3 & Hall).
      exists (groups ++ [rs]). rewrite concat_app. simpl.
      rewrite app_nil_r, <- app_assoc.
      split_and!; eauto using steps_trans.
      apply Forall2_app; [exact Hg|]. constructor; [|constructor].
      split.
      * rewrite Hlen. unfold range. rewrite length_map, length_seq. lia.
      * eapply Forall_impl; [exact Hall|]. simpl. intros r (? & ? & ? & ?); auto.
  - simpl. auto.
Qed.

Lemma groups_ok_length {X} lo hi (P : X -> UsageRecord -> Prop) xs groups :
  groups_ok lo hi P xs groups ->
  length groups = length xs /\
  Z.of_nat (length (concat groups))
    = sum_list_Z (map (fun g => Z.of_nat (length g)) groups) /\
  Forall (fun c => lo <= c <= hi) (map (fun g => Z.of_nat (length g)) groups) /\
  lo * Z.of_nat (length xs) <= Z.of_nat (length (concat groups))
    <= hi * Z.of_nat (length xs) /\
  Forall (fun r => exists x, x ∈ xs /\ P x r) (concat groups).
Proof.
  induction 1 as [|x g xs groups [Hlen HP] _ IH]; simpl.
  - split_and!; try constructor; lia.
  - destruct IH as (IH1 & IH2 & IH3 & IH4 & IH5).
    rewrite length_app.
    split_and!; try lia.
    + constructor; auto.
    + apply Forall_app; split.
      * eapply Forall_impl; [exact HP|]. simpl. intros r ?. exists x.
        split; [left | assumption].
      * eapply Forall_impl; [exact IH5|]. simpl. intros r (x' & ? & ?).
        exists x'. split; [right|]; assumption.
Qed.

(** ** The loop bodies *)

Lemma dict_get_keys {V} (d : dict V) k :
  k ∈ keys d -> exists v, dict_get d k = Some v.
Proof.
  induction d as [|[k' v] d IH]; simpl; intros Hk.
  - inversion Hk.
  - destruct (String.eqb k' k) eqn:E; [eauto|].
    apply elem_of_cons in Hk as [->|Hk]; [|auto].
    rewrite String.eqb_refl in E. discriminate.
Qed.

Lemma dict_get_values {V} (d : dict V) k v :
  dict_get d k = Some v -> v ∈ map snd d.
Proof.
  induction d as [|[k' v'] d IH]; simpl; [discriminate|].
  destruct (String.eqb k' k).
  - intros [= ->]. left.
  - intros H. right. auto.
Qed.

Lemma catalog_models_nonempty entry :
  entry ∈ map snd providers_data -> models entry <> [].
Proof.
  revert entry. apply Forall_forall. unfold providers_data. simpl.
  repeat constructor; discriminate.
Qed.

Lemma existsb_eqb_elem (x : string) l : x ∈ l -> existsb (String.eqb x) l = true.
Proof.
  induction 1 as [x l|x y l _ IH]; simpl.
  - rewrite String.eqb_refl. reflexivity.
  - rewrite IH. apply orb_true_r.
Qed.

Lemma sample_call_spec current_date acc w :
  wp (sample_call current_date acc)
     (fun acc' w' => exists r, acc' = acc ++ [r] /\ steps w w' /\ base_ok r) w.
Proof.
  unfold sample_call. apply wp_bind.
  apply (wp_choices (range 24) hour_weights 98); try reflexivity.
  intros hour w1 _ Hs. wp_go.
  destruct (dict_get_keys providers_data x) as [entry Hentry]; [assumption|].
  rewrite Hentry.
  assert (Hmodels : models entry <> []).
  { eapply catalog_models_nonempty, dict_get_values, Hentry. }
  apply wp_bind, wp_choice; [exact Hmodels|]. intros model w2 Hmodel Hs2. chain.
  wp_go.
  assert (Hrt : forall f wf,
            steps w wf -> (4 # 5 <= f)%Q ->
            wp (ret (acc ++ [mkRecord x model v1 v2 (round2 (v3 * f))
                                      (replace_hms current_date hour v v0)]))
               (fun acc' w' => exists r, acc' = acc ++ [r] /\ steps w w' /\ base_ok r)
               wf).
  { intros f wf Hs' Hf. apply wp_ret. eexists; split; [reflexivity|].
    split; [exact Hs'|]. split_and!.
    - unfold catalog_ok; cbn [provider_name model_name].
      rewrite Hentry. apply existsb_eqb_elem, Hmodel.
    - unfold tokens_in; simpl; lia.
    - apply round2_pos. nra. }
  destruct (contains "gpt-4" model || contains "claude-3-opus" model).
  - wp_go. apply Hrt; [assumption | lra].
  - wp_go. apply Hrt; [assumption | lra].
Qed.

Lemma burst_call_spec burst_time acc w :
  wp (burst_call burst_time acc)
     (fun acc' w' => exists r,
        acc' = acc ++ [r] /\ steps w w' /\ burst_ok burst_time r) w.
Proof.
  unfold burst_call. wp_go.
  eexists; split; [reflexivity|]. split; [assumption|].
  unfold burst_ok, tokens_in, timedelta, MINUTE, SECOND; simpl.
  split_and!; try assumption; try lia.
  apply round2_pos. lra.
Qed.

Lemma scattered_timedelta t days hours minutes r :
  1 <= days <= 30 -> 0 <= hours <= 23 -> 0 <= minutes <= 59 ->
  timestamp r = t - timedelta days hours minutes ->
  scattered t r.
Proof.
  unfold scattered, timedelta, DAY, HOUR, MINUTE, SECOND. intros ? ? ? ->. lia.
Qed.

Lemma expensive_call_spec acc w :
  wp (expensive_call acc)
     (fun acc' w' => exists r,
        acc' = acc ++ [r] /\ steps w w' /\ expensive_ok w r) w.
Proof.
  unfold expensive_call. wp_go.
  eexists; split; [reflexivity|]. split; [assumption|].
  split; [|eapply scattered_timedelta; eauto].
  unfold expensive_rec, tokens_in; simpl. split_and!; try reflexivity; try lia.
  apply round2_pos. lra.
Qed.

Lemma efficient_call_spec acc w :
  wp (efficient_call acc)
     (fun acc' w' => exists r,
        acc' = acc ++ [r] /\ steps w w' /\ efficient_ok w r) w.
Proof.
  unfold efficient_call. wp_go.
  eexists; split; [reflexivity|]. split; [assumption|].
  split; [|eapply scattered_timedelta; eauto].
  unfold efficient_rec, tokens_in; simpl. split_and!; try assumption; try lia.
  apply round2_pos. lra.
Qed.

(** ** Frames in the heap *)

Lemma steps_reach w w' : steps w w' -> reach [] [] w w'.
Proof. intros [h f c]. split; rewrite ?app_nil_r; auto. Qed.

Lemma reach_refl w : reach [] [] w w.
Proof. apply steps_reach, steps_refl. Qed.

Lemma reach_trans e1 f1 e2 f2 w1 w2 w3 :
  reach e1 f1 w1 w2 -> reach e2 f2 w2 w3 -> reach (e1 ++ e2) (f1 ++ f2) w1 w3.
Proof.
  intros [h1 g1 c1] [h2 g2 c2]. split.
  - rewrite h2, h1, app_assoc. reflexivity.
  - rewrite g2, g1, app_assoc. reflexivity.
  - intros Hm. destruct (c1 Hm) as [? Hm2]. destruct (c2 Hm2). split; [lia|assumption].
Qed.

Lemma reach_lookup_old ext files w w' l rows :
  reach ext files w w' -> heap w !! l = Some rows -> heap w' !! l = Some rows.
Proof.
  intros [h _ _] H. rewrite h. rewrite lookup_app_l; [exact H|].
  eapply lookup_lt_Some, H.
Qed.

Lemma reach_lookup_new ext files w w' i rows :
  reach ext files w w' -> ext !! i = Some rows ->
  heap w' !! (length (heap w) + i)%nat = Some rows.
Proof.
  intros [h _ _] H. rewrite h. rewrite lookup_app_r by lia.
  replace (length (heap w) + i - length (heap w))%nat with i by lia. exact H.
Qed.

Lemma reach_lookup_at ext files w w' i l rows :
  reach ext files w w' -> ext !! i = Some rows ->
  l = (length (heap w) + i)%nat -> heap w' !! l = Some rows.
Proof. intros Hr Hi ->. eapply reach_lookup_new; eauto. Qed.

Lemma reach_length ext files w w' :
  reach ext files w w' -> length (heap w') = (length (heap w) + length ext)%nat.
Proof. intros [h _ _]. rewrite h, length_app. reflexivity. Qed.

Lemma wp_df_new rows post w :
  (forall w', reach [rows] [] w w' -> clock_now w' = clock_now w ->
              post (length (heap w)) w') ->
  wp (df_new rows) post w.
Proof.
  intros H. unfold wp, df_new. apply H; [|reflexivity].
  split; simpl; rewrite ?app_nil_r; auto.
  intros Hm; split; [lia | exact Hm].
Qed.

Lemma wp_df_rows l rows post w :
  heap w !! l = Some rows -> post rows w -> wp (df_rows l) post w.
Proof. intros Hl H. unfold wp, df_rows. rewrite Hl. exact H. Qed.

Lemma wp_df_copy l rows post w :
  heap w !! l = Some rows ->
  (forall w', reach [rows] [] w w' -> clock_now w' = clock_now w ->
              post (length (heap w)) w') ->
  wp (df_copy l) post w.
Proof.
  intros Hl H. unfold df_copy. apply wp_bind. eapply wp_df_rows; [exact Hl|].
  apply wp_df_new, H.
Qed.

Lemma wp_pd_concat2 a b ra rb post w :
  heap w !! a = Some ra -> heap w !! b = Some rb ->
  (forall w', reach [ra ++ rb] [] w w' -> post (length (heap w)) w') ->
  wp (pd_concat [a; b]) post w.
Proof.
  intros Ha Hb H. unfold pd_concat. simpl.
  repeat lazymatch goal with
  | |- wp (bind _ _) _ _ => apply wp_bind
  | |- wp (ret _) _ _ => apply wp_ret
  | |- wp (df_rows _) _ _ => eapply wp_df_rows; [eassumption|]
  end.
  apply wp_df_new. auto.
Qed.

Lemma wp_to_csv l path rows post w :
  heap w !! l = Some rows ->
  (forall w', reach [] [(path, rows)] w w' -> post tt w') ->
  wp (to_csv l path) post w.
Proof.
  intros Hl H. unfold to_csv. apply wp_bind. eapply wp_df_rows; [exact Hl|].
  unfold wp. apply H. split; simpl; rewrite ?app_nil_r; auto.
  intros Hm; split; [lia | exact Hm].
Qed.

Ltac rchain :=
  repeat match goal with
  | H : steps _ _ |- _ => apply steps_reach in H
  end;
  repeat match goal with
  | H1 : reach ?e1 ?f1 ?a ?b, H2 : reach ?e2 ?f2 ?b ?c |- _ =>
      let H := fresh "Hr" in
      pose proof (reach_trans e1 f1 e2 f2 a b c H1 H2) as H;
      simpl in H; clear H1 H2
  end.

(** ** What a computation leaves alone *)

Section Keeps.

Context {T : Type} (f : World -> T).

Lemma keeps_ret {A} (a : A) : keeps f (ret a).
Proof. intros w. reflexivity. Qed.

Lemma keeps_raise {A} e : keeps f (@raise A e).
Proof. intros w. exact I. Qed.

Lemma keeps_bind {A B} (m : M A) (k : A -> M B) :
  keeps f m -> (forall a, keeps f (k a)) -> keeps f (bind m k).
Proof.
  intros Hm Hk w. specialize (Hm w). unfold bind.
  destruct (m w) as [[a w1]|e]; [|exact I].
  specialize (Hk a w1). destruct (k a w1) as [[b w2]|e]; [|exact I].
  congruence.
Qed.

Lemma keeps_for_each {X S} (xs : list X) (body : X -> S -> M S) s :
  (forall x s, keeps f (body x s)) -> keeps f (for_each xs body s).
Proof.
  intros Hbody. revert s. induction xs as [|x xs IH]; intros s; simpl.
  - apply keeps_ret.
  - apply keeps_bind; auto.
Qed.

Lemma keeps_df_rows l : keeps f (df_rows l).
Proof. intros w. unfold df_rows. destruct (heap w !! l); auto. Qed.

End Keeps.

Ltac keeps_go :=
  repeat lazymatch goal with
  | |- keeps _ (ret _) => apply keeps_ret
  | |- keeps _ (raise _) => apply keeps_raise
  | |- keeps _ (bind _ _) => apply keeps_bind; [|intros ?]
  | |- keeps _ (for_each _ _ _) => apply keeps_for_each; intros ? ?
  | |- keeps _ (df_rows _) => apply keeps_df_rows
  | |- keeps _ draw_py => intros ?; reflexivity
  | |- keeps _ draw_np => intros ?; reflexivity
  | |- keeps _ now => intros ?; reflexivity
  | |- keeps _ (df_new _) => intros ?; reflexivity
  | |- keeps _ (match ?x with _ => _ end) => destruct x
  end.

Lemma keeps_df_sample l frac replace : keeps python_side (df_sample l frac replace).
Proof.
  unfold df_sample, np_choice, np_permutation, take_rows. keeps_go.
Qed.

(** ** The derived datasets *)

Lemma wp_df_copy_exact l rows post w :
  heap w !! l = Some rows ->
  post (length (heap w)) (alloc rows w) ->
  wp (df_copy l) post w.
Proof.
  intros Hl H. unfold wp, df_copy, bind, df_rows. rewrite Hl. exact H.
Qed.

Lemma wp_now_exact post w : post (clock_now w) (tick w) -> wp now post w.
Proof. intros H. exact H. Qed.

Lemma reach_alloc_ticks rows w :
  reach [rows] [] w (tick (tick (alloc rows w))).
Proof.
  split; simpl; rewrite ?app_nil_r; auto. intros Hm.
  destruct (monotone_tl _ Hm) as [? Hm1]. destruct (monotone_tl _ Hm1) as [? Hm2].
  split; [lia | exact Hm2].
Qed.

(** The burst derivation, for any property [P] the loop body gives the
    records of a window. *)
Lemma generate_burst_pattern_gen (P : Z -> UsageRecord -> Prop) base_df rows w :
  heap w !! base_df = Some rows ->
  (forall t acc w1, wp (burst_call t acc)
     (fun acc' w' => exists r, acc' = acc ++ [r] /\ steps w1 w' /\ P t r) w1) ->
  wp (generate_burst_pattern base_df)
     (fun l' w' => exists groups,
        l' = (length (heap w) + 2)%nat /\
        reach [rows; concat groups; rows ++ concat groups] [] w w' /\
        groups_ok 50 100 P
          (date_range (clock_now w - timedelta 30 0 0)
                      (clock_now w + hd 0 (clock_ticks w)) (3 * DAY)) groups) w.
Proof.
  intros Hbase Hcall. unfold generate_burst_pattern.
  apply wp_bind. eapply wp_df_copy_exact; [exact Hbase|].
  apply wp_bind, wp_now_exact. apply wp_bind, wp_now_exact.
  pose proof (reach_alloc_ticks rows w) as Hr0.
  set (w3 := tick (tick (alloc rows w))) in *.
  apply wp_bind. eapply wp_mono.
  { apply (wp_windows 50 100 P burst_call); [lia | exact Hcall]. }
  simpl. intros additional w4 (groups & -> & Hg & Hs4).
  rchain.
  pose proof (reach_length _ _ _ _ Hr) as Hlen4.
  apply wp_bind, wp_df_new. intros w5 Hr5 _. rchain.
  pose proof (reach_length _ _ _ _ Hr0) as Hlen5. simpl in Hlen4, Hlen5.
  eapply wp_pd_concat2.
  - eapply (reach_lookup_at _ _ w w5 0); [exact Hr0 | reflexivity | lia].
  - eapply (reach_lookup_at _ _ w w5 1); [exact Hr0 | reflexivity | lia].
  - intros w6 Hr6. rchain. exists groups.
    split_and!; first [assumption | lia].
Qed.

Lemma generate_burst_pattern_spec base_df base w :
  heap w !! base_df = Some base ->
  wp (generate_burst_pattern base_df)
     (fun l' w' => exists e groups,
        l' = (length (heap w) + 2)%nat /\
        reach [base; concat groups; base ++ concat groups] [] w w' /\
        (monotone (clock_ticks w) -> clock_now w <= e) /\
        groups_ok 50 100 burst_ok
          (date_range (clock_now w - timedelta 30 0 0) e (3 * DAY)) groups) w.
Proof.
  intros Hbase. eapply wp_mono.
  - apply (generate_burst_pattern_gen burst_ok base_df base w Hbase).
    intros; apply burst_call_spec.
  - simpl. intros l' w' (groups & Hl & Hr & Hg).
    exists (clock_now w + hd 0 (clock_ticks w)), groups.
    split_and!; try assumption.
    intros Hm. destruct (monotone_tl _ Hm). lia.
Qed.

Lemma scattered_between w0 w1 wi w2 w3 ext1 ext2 r :
  monotone (clock_ticks w0) ->
  reach ext1 [] w0 w1 -> steps w1 wi -> steps wi w2 -> reach ext2 [] w2 w3 ->
  scattered (clock_now wi) r ->
  clock_now w0 - timedelta 30 23 59 <= timestamp r
    <= clock_now w3 - timedelta 1 0 0.
Proof.
  intros Hm H01 H1i Hi2 H23 [Hlo Hhi].
  destruct (reach_clock _ _ _ _ H01 Hm) as [? Hm1].
  destruct (steps_clock _ _ H1i Hm1) as [? Hmi].
  destruct (steps_clock _ _ Hi2 Hmi) as [? Hm2].
  destruct (reach_clock _ _ _ _ H23 Hm2) as [? _].
  lia.
Qed.

(** The cost-focused derivation, for any properties [P1] and [P2] the two
    loop bodies give their records; [w1], [w2] and [w3] are the worlds
    around the two loops. *)
Lemma generate_cost_focused_data_gen (P1 P2 : World -> UsageRecord -> Prop)
      base_df providers rows w :
  heap w !! base_df = Some rows ->
  (forall acc w1, wp (expensive_call acc)
     (fun acc' w' => exists r, acc' = acc ++ [r] /\ steps w1 w' /\ P1 w1 r) w1) ->
  (forall acc w1, wp (efficient_call acc)
     (fun acc' w' => exists r, acc' = acc ++ [r] /\ steps w1 w' /\ P2 w1 r) w1) ->
  wp (generate_cost_focused_data base_df providers)
     (fun l' w' => exists w1 w2 w3 expensive efficient,
        l' = (length (heap w) + 2)%nat /\
        reach [rows; expensive ++ efficient; rows ++ expensive ++ efficient]
              [] w w' /\
        length expensive = 200%nat /\ length efficient = 300%nat /\
        reach [rows] [] w w1 /\ steps w1 w2 /\ steps w2 w3 /\
        reach [expensive ++ efficient; rows ++ expensive ++ efficient]
              [] w3 w' /\
        Forall (fun r => exists wi, steps w1 wi /\ steps wi w2 /\ P1 wi r)
               expensive /\
        Forall (fun r => exists wi, steps w2 wi /\ steps wi w3 /\ P2 wi r)
               efficient) w.
Proof.
  intros Hbase Hcall1 Hcall2. unfold generate_cost_focused_data.
  apply wp_bind. eapply wp_df_copy; [exact Hbase|]. intros w1 Hr1 _.
  apply wp_bind. eapply wp_mono.
  { apply (wp_calls P1 expensive_call), Hcall1. }
  cbv beta. intros ? w2 (expensive & -> & Hlen1 & Hs12 & Hexp).
  rewrite app_nil_l.
  apply wp_bind. eapply wp_mono.
  { apply (wp_calls P2 efficient_call), Hcall2. }
  cbv beta. intros ? w3 (efficient & -> & Hlen2 & Hs23 & Heff).
  pose proof (reach_trans _ _ _ _ _ _ _ Hr1
                (reach_trans _ _ _ _ _ _ _ (steps_reach _ _ Hs12)
                             (steps_reach _ _ Hs23))) as Hr3. simpl in Hr3.
  pose proof (reach_length _ _ _ _ Hr3) as Hlen3. simpl in Hlen3.
  apply wp_bind, wp_df_new. intros w4 Hr4 _.
  pose proof (reach_trans _ _ _ _ _ _ _ Hr3 Hr4) as Hr04. simpl in Hr04.
  pose proof (reach_length _ _ _ _ Hr04) as Hlen4. simpl in Hlen4.
  eapply wp_pd_concat2.
  - eapply (reach_lookup_at _ _ w w4 0); [exact Hr04 | reflexivity | lia].
  - eapply (reach_lookup_at _ _ w w4 1); [exact Hr04 | reflexivity | lia].
  - intros w5 Hr5.
    pose proof (reach_trans _ _ _ _ _ _ _ Hr04 Hr5) as Hr05. simpl in Hr05.
    pose proof (reach_trans _ _ _ _ _ _ _ Hr4 Hr5) as Hr45. simpl in Hr45.
    exists w1, w2, w3, expensive, efficient.
    split_and!; try assumption; try lia.
Qed.

Lemma generate_cost_focused_data_spec base_df providers base w :
  heap w !! base_df = Some base ->
  wp (generate_cost_focused_data base_df providers)
     (fun l' w' => exists expensive efficient,
        l' = (length (heap w) + 2)%nat /\
        reach [base; expensive ++ efficient; base ++ expensive ++ efficient]
              [] w w' /\
        length expensive = 200%nat /\ length efficient = 300%nat /\
        Forall expensive_rec expensive /\ Forall efficient_rec efficient /\
        (monotone (clock_ticks w) ->
         Forall (fun r => clock_now w - timedelta 30 23 59 <= timestamp r
                          <= clock_now w' - timedelta 1 0 0)
                (expensive ++ efficient))) w.
Proof.
  intros Hbase. eapply wp_mono.
  - apply (generate_cost_focused_data_gen expensive_ok efficient_ok
             base_df providers base w Hbase).
    + apply expensive_call_spec.
    + apply efficient_call_spec.
  - simpl.
    intros l' w' (w1 & w2 & w3 & expensive & efficient & Hl & Hr & Hl1 & Hl2
                  & Hr1 & Hs12 & Hs23 & Hr3 & Hexp & Heff).
    exists expensive, efficient. split_and!; try assumption.
    + eapply Forall_impl; [exact Hexp|]. simpl. intros r (? & ? & ? & [? ?]); auto.
    + eapply Forall_impl; [exact Heff|]. simpl. intros r (? & ? & ? & [? ?]); auto.
    + intros Hm. apply Forall_app; split.
      * eapply Forall_impl; [exact Hexp|]. simpl.
        intros r (wi & H1i & Hi2 & [_ Hsc]).
        eapply (scattered_between w w1 wi w2 w'); eauto.
        eapply (reach_trans [] [] _ [] w2 w3 w'); [apply steps_reach, Hs23|].
        exact Hr3.
      * eapply Forall_impl; [exact Heff|]. simpl.
        intros r (wi & H1i & Hi2 & [_ Hsc]).
        eapply (scattered_between w w2 wi w3 w'); eauto.
        eapply (reach_trans _ [] [] [] w w1 w2); [exact Hr1|].
        apply steps_reach, Hs12.
Qed.

(** ** The clock readings of the cost-focused records *)

Lemma clock_of_advance k w1 w2 :
  clock_of w1 = clock_of w2 -> clock_of (advance k w1) = clock_of (advance k w2).
Proof.
  revert w1 w2. induction k as [|k IH]; simpl; intros w1 w2 H; [exact H|].
  apply IH. unfold clock_of, tick in *. simpl. injection H as -> ->. reflexivity.
Qed.

Lemma advance_add a b w : advance (a + b) w = advance b (advance a w).
Proof. revert w. induction a as [|a IH]; simpl; auto. Qed.

Lemma clock_now_advance k w : clock_now (advance k w) = reading w k.
Proof.
  revert w. induction k as [|k IH]; intros w; simpl.
  - unfold reading. rewrite take_0. simpl. lia.
  - rewrite IH. unfold reading, tick. simpl.
    destruct (clock_ticks w) as [|d ticks]; simpl; [rewrite take_nil; simpl|]; lia.
Qed.

Lemma reading_ext k w1 w2 : clock_of w1 = clock_of w2 -> reading w1 k = reading w2 k.
Proof. unfold clock_of, reading. intros [= -> ->]. reflexivity. Qed.

Lemma keeps_reads {A} (m : M A) : keeps clock_of m -> reads 0 m.
Proof. intros H w. specialize (H w). destruct (m w) as [[a w']|e]; auto. Qed.

Lemma reads_bind {A B} n k (m : M A) (f : A -> M B) :
  reads n m -> (forall a, reads k (f a)) -> reads (n + k) (bind m f).
Proof.
  intros Hm Hf w. specialize (Hm w). unfold bind.
  destruct (m w) as [[a w1]|e]; [|exact I].
  specialize (Hf a w1). destruct (f a w1) as [[b w2]|e]; [|exact I].
  rewrite Hf, advance_add. apply clock_of_advance, Hm.
Qed.

Lemma reads_now : reads 1 now.
Proof. intros w. reflexivity. Qed.

Lemma wp_reads {A} n (m : M A) post w :
  reads n m -> wp m post w ->
  wp m (fun a w' => post a w' /\ clock_of w' = clock_of (advance n w)) w.
Proof.
  intros Hr Hw. unfold wp in *. specialize (Hr w).
  destruct (m w) as [[a w']|e]; auto.
Qed.

Lemma reads_expensive_call acc : reads 1 (expensive_call acc).
Proof.
  unfold expensive_call. apply (reads_bind 1 0); [apply reads_now|].
  intros t. apply keeps_reads. unfold randint, uniform, random. keeps_go.
Qed.

Lemma reads_efficient_call acc : reads 1 (efficient_call acc).
Proof.
  unfold efficient_call. apply (reads_bind 1 0); [apply reads_now|].
  intros t. apply keeps_reads. unfold randint, choice, uniform, random. keeps_go.
Qed.

(** A loop whose body reads the clock once and appends one record
    described by [P] of that reading: the [k]-th record belongs to the
    [k]-th reading. *)
Lemma wp_calls_indexed {X} (P : Z -> UsageRecord -> Prop)
      (body : list UsageRecord -> M (list UsageRecord)) (xs : list X) acc w :
  (forall acc w, wp (body acc)
     (fun acc' w' => exists r, acc' = acc ++ [r] /\ steps w w' /\
                               clock_of w' = clock_of (tick w) /\
                               P (clock_now w) r) w) ->
  wp (for_each xs (fun _ => body) acc)
     (fun acc' w' => exists rs,
        acc' = acc ++ rs /\ length rs = length xs /\ steps w w' /\
        clock_of w' = clock_of (advance (length xs) w) /\
        forall k r, rs !! k = Some r -> P (reading w k) r) w.
Proof.
  intros Hbody.
  apply (wp_for_each
    (fun done acc' w' => exists rs,
       acc' = acc ++ rs /\ length rs = length done /\ steps w w' /\
       clock_of w' = clock_of (advance (length done) w) /\
       forall k r, rs !! k = Some r -> P (reading w k) r)).
  - exists []. rewrite app_nil_r. split_and!; auto using steps_refl.
    intros k r Hk. inversion Hk.
  - intros done x acc1 w1 (rs & -> & Hlen & Hs & Hc & Hall).
    eapply wp_mono; [apply Hbody|]. simpl.
    intros acc2 w2 (r & -> & Hs2 & Hc2 & Hr). exists (rs ++ [r]).
    rewrite <- app_assoc, !length_app, Hlen. simpl.
    split_and!; eauto using steps_trans.
    + rewrite Hc2, advance_add.
      apply (clock_of_advance 1 w1 (advance (length done) w) Hc).
    + intros k r0 Hk. apply lookup_app_Some in Hk as [Hk|[Hge Hk]].
      * apply Hall, Hk.
      * apply list_lookup_singleton_Some in Hk as [Hk0 <-].
        replace k with (length done) by lia.
        rewrite <- clock_now_advance.
        replace (clock_now (advance (length done) w)) with (clock_now w1);
          [exact Hr|].
        unfold clock_of in Hc. injection Hc as Hn _. exact Hn.
Qed.

Lemma reach_alloc rows w : reach [rows] [] w (alloc rows w).
Proof.
  split; simpl; rewrite ?app_nil_r; auto. intros Hm. split; [lia | exact Hm].
Qed.

(** The cost-focused derivation with the reading each record was stamped
    from: the [k]-th appended record belongs to the [k]-th reading of the
    clock after entry. *)
Lemma generate_cost_focused_data_readings base_df providers rows w :
  heap w !! base_df = Some rows ->
  wp (generate_cost_focused_data base_df providers)
     (fun l' w' => exists expensive efficient,
        l' = (length (heap w) + 2)%nat /\
        reach [rows; expensive ++ efficient; rows ++ expensive ++ efficient]
              [] w w' /\
        length expensive = 200%nat /\ length efficient = 300%nat /\
        Forall expensive_rec expensive /\ Forall efficient_rec efficient /\
        forall k r, (expensive ++ efficient) !! k = Some r ->
                    scattered (reading w k) r) w.
Proof.
  intros Hbase. unfold generate_cost_focused_data.
  apply wp_bind. apply (wp_df_copy_exact _ rows); [exact Hbase|].
  pose proof (reach_alloc rows w) as Hr1. set (w1 := alloc rows w) in *.
  assert (Hc1 : clock_of w1 = clock_of w) by reflexivity.
  apply wp_bind. eapply wp_mono.
  { apply (wp_calls_indexed (fun t r => expensive_rec r /\ scattered t r)
             expensive_call).
    intros acc w0.
    pose proof (wp_reads 1 _ _ w0 (reads_expensive_call acc)
                  (expensive_call_spec acc w0)) as Hcall.
    eapply wp_mono; [exact Hcall|]. simpl.
    intros acc' w' [(r & -> & Hs & Hok) Hc]. exists r. auto. }
  cbv beta. intros ? w2 (expensive & -> & Hlen1 & Hs12 & Hc2 & Hexp).
  rewrite app_nil_l.
  apply wp_bind. eapply wp_mono.
  { apply (wp_calls_indexed (fun t r => efficient_rec r /\ scattered t r)
             efficient_call).
    intros acc w0.
    pose proof (wp_reads 1 _ _ w0 (reads_efficient_call acc)
                  (efficient_call_spec acc w0)) as Hcall.
    eapply wp_mono; [exact Hcall|]. simpl.
    intros acc' w' [(r & -> & Hs & Hok) Hc]. exists r. auto. }
  cbv beta. intros ? w3 (efficient & -> & Hlen2 & Hs23 & Hc3 & Heff).
  pose proof (reach_trans _ _ _ _ _ _ _ Hr1
                (reach_trans _ _ _ _ _ _ _ (steps_reach _ _ Hs12)
                             (steps_reach _ _ Hs23))) as Hr3. simpl in Hr3.
  pose proof (reach_length _ _ _ _ Hr3) as Hlen3. simpl in Hlen3.
  apply wp_bind, wp_df_new. intros w4 Hr4 _.
  pose proof (reach_trans _ _ _ _ _ _ _ Hr3 Hr4) as Hr04. simpl in Hr04.
  pose proof (reach_length _ _ _ _ Hr04) as Hlen4. simpl in Hlen4.
  change (length (range 200)) with 200%nat in Hlen1, Hc2.
  change (length (range 300)) with 300%nat in Hlen2.
  eapply wp_pd_concat2.
  - eapply (reach_lookup_at _ _ w w4 0); [exact Hr04 | reflexivity | lia].
  - eapply (reach_lookup_at _ _ w w4 1); [exact Hr04 | reflexivity | lia].
  - intros w5 Hr5.
    pose proof (reach_trans _ _ _ _ _ _ _ Hr04 Hr5) as Hr05. simpl in Hr05.
    exists expensive, efficient.
    split_and!; try assumption; try lia.
    + apply Forall_lookup. intros k r Hk. apply (Hexp k r Hk).
    + apply Forall_lookup. intros k r Hk. apply (Heff k r Hk).
    + intros k r Hk. apply lookup_app_Some in Hk as [Hk|[Hge Hk]].
      * rewrite <- (reading_ext k w1 w Hc1). apply (Hexp k r Hk).
      * destruct (Heff _ _ Hk) as [_ Hsc].
        replace (reading w k) with (reading w2 (k - length expensive)); [exact Hsc|].
        rewrite <- !clock_now_advance.
        replace k with (200 + (k - length expensive))%nat at 2 by lia.
        rewrite advance_add.
        assert (Hcc : clock_of (advance (k - length expensive) w2)
                      = clock_of (advance (k - length expensive) (advance 200 w))).
        { apply clock_of_advance. rewrite Hc2.
          apply clock_of_advance, Hc1. }
        unfold clock_of in Hcc. injection Hcc as Hn _. exact Hn.
Qed.

(** ** Sampling *)

Lemma swap_length x i j : length (swap x i j) = length x.
Proof.
  unfold swap. destruct (x !! i), (x !! j); auto.
  rewrite !length_insert. reflexivity.
Qed.

Lemma swap_lookup x i j k :
  is_Some (x !! i) -> is_Some (x !! j) ->
  swap x i j !! k = x !! transpose i j k.
Proof.
  intros [a Ha] [b Hb]. unfold swap, transpose. rewrite Ha, Hb.
  pose proof (lookup_lt_Some _ _ _ Ha). pose proof (lookup_lt_Some _ _ _ Hb).
  destruct (decide (k = i)) as [->|Hki].
  - rewrite list_lookup_insert_eq by (rewrite length_insert; lia). congruence.
  - rewrite list_lookup_insert_ne by congruence.
    destruct (decide (k = j)) as [->|Hkj].
    + rewrite list_lookup_insert_eq by lia. congruence.
    + rewrite list_lookup_insert_ne by congruence. reflexivity.
Qed.

Lemma transpose_inj i j k1 k2 : transpose i j k1 = transpose i j k2 -> k1 = k2.
Proof. unfold transpose. repeat case_decide; congruence. Qed.

Lemma swap_NoDup x i j : NoDup x -> NoDup (swap x i j).
Proof.
  intros Hx. destruct (x !! i) as [a|] eqn:Ha; [destruct (x !! j) as [b|] eqn:Hb|].
  - apply NoDup_alt. intros k1 k2 v.
    rewrite !swap_lookup by (rewrite ?Ha, ?Hb; eauto). intros H1 H2.
    eapply transpose_inj, (proj1 (NoDup_alt x) Hx); eauto.
  - unfold swap. rewrite Ha, Hb. exact Hx.
  - unfold swap. rewrite Ha. exact Hx.
Qed.

Lemma swap_Forall (P : nat -> Prop) x i j : Forall P x -> Forall P (swap x i j).
Proof.
  intros Hx. destruct (x !! i) as [a|] eqn:Ha; [destruct (x !! j) as [b|] eqn:Hb|].
  - apply Forall_lookup. intros k v.
    rewrite swap_lookup by (rewrite ?Ha, ?Hb; eauto).
    apply (proj1 (Forall_lookup P x) Hx).
  - unfold swap. rewrite Ha, Hb. exact Hx.
  - unfold swap. rewrite Ha. exact Hx.
Qed.

Lemma np_permutation_spec n w :
  wp (np_permutation n)
     (fun p w' => length p = n /\ NoDup p /\ Forall (fun i => (i < n)%nat) p /\
                  steps w w') w.
Proof.
  unfold np_permutation. eapply wp_mono.
  - apply (wp_for_each
      (fun _ p w' => length p = n /\ NoDup p /\
                     Forall (fun i => (i < n)%nat) p /\ steps w w')).
    + split_and!; [apply length_seq | apply NoDup_seq | | apply steps_refl].
      apply Forall_forall. intros i Hi. apply elem_of_seq in Hi. lia.
    + intros _ i p w1 (Hlen & Hnd & Hall & Hs).
      apply wp_bind, wp_draw_np. intros r w2 Hs2. apply wp_ret.
      split_and!; eauto using swap_NoDup, swap_Forall, steps_trans.
      rewrite swap_length. exact Hlen.
  - auto.
Qed.

Lemma np_choice_replace_spec n size w :
  (n <> 0 \/ size = 0)%nat ->
  wp (np_choice n size true)
     (fun ps w' => length ps = size /\ Forall (fun i => (i < n)%nat) ps /\
                   steps w w') w.
Proof.
  intros Hn. unfold np_choice.
  destruct (Nat.eqb_spec n 0) as [->|Hn0]; simpl.
  - destruct Hn as [?| ->]; [congruence|]. simpl. apply wp_ret.
    split_and!; auto using steps_refl.
  - eapply wp_mono.
    + apply (wp_for_each
        (fun done ps w' => length ps = length done /\
                           Forall (fun i => (i < n)%nat) ps /\ steps w w')).
      * split_and!; auto using steps_refl.
      * intros done i ps w1 (Hlen & Hall & Hs).
        apply wp_bind, wp_draw_np. intros r w2 Hs2. apply wp_ret.
        rewrite !length_app, Hlen. split_and!; eauto using steps_trans.
        apply Forall_app. split; [exact Hall|]. constructor; [|constructor].
        pose proof (Z.mod_pos_bound r (Z.of_nat n)). lia.
    + simpl. intros ps w' (Hlen & ? & ?). rewrite length_seq in Hlen. auto.
Qed.

Lemma np_choice_noreplace_spec n size w :
  (size <= n)%nat ->
  wp (np_choice n size false)
     (fun ps w' => length ps = size /\ NoDup ps /\
                   Forall (fun i => (i < n)%nat) ps /\ steps w w') w.
Proof.
  intros Hsize. unfold np_choice.
  destruct (Nat.ltb_spec n size) as [?|_]; [lia|].
  apply wp_bind. eapply wp_mono; [apply np_permutation_spec|]. simpl.
  intros p w' (Hlen & Hnd & Hall & Hs). apply wp_ret.
  split_and!; auto using Forall_take.
  - rewrite length_take_le; lia.
  - apply (sublist_NoDup (take size p) p); [exact Hnd | apply sublist_take].
Qed.

Lemma take_rows_run rows positions :
  Forall (fun i => (i < length rows)%nat) positions ->
  exists out, rows_at rows positions out /\
    forall acc w, for_each positions
        (fun i acc => match rows !! i with
                      | Some r => ret (acc ++ [r])
                      | None => raise IndexError
                      end) acc w = Ok (acc ++ out, w).
Proof.
  induction 1 as [|i ps Hi _ (out & Hout & Hrun)].
  - exists []. split; [constructor|]. intros acc w. simpl.
    rewrite app_nil_r. reflexivity.
  - destruct (lookup_lt_is_Some_2 _ _ Hi) as [r Hr].
    exists (r :: out). split; [constructor; assumption|].
    intros acc w. simpl. unfold bind. rewrite Hr. unfold ret at 1.
    rewrite Hrun, <- app_assoc. reflexivity.
Qed.

Lemma take_rows_spec rows positions post w :
  Forall (fun i => (i < length rows)%nat) positions ->
  (forall out, rows_at rows positions out -> post out w) ->
  wp (take_rows rows positions) post w.
Proof.
  intros Hps H. destruct (take_rows_run rows positions Hps) as (out & Hout & Hrun).
  unfold wp, take_rows. rewrite Hrun. apply H, Hout.
Qed.

Lemma round_half_even_le (q : Q) (n : Z) :
  (q <= inject_Z n)%Q -> round_half_even q <= n.
Proof.
  unfold Qle, round_half_even. destruct q as [a d]. simpl. intros Hq.
  pose proof (Z.div_mod a (Zpos d) ltac:(lia)) as Hdm.
  pose proof (Z.mod_pos_bound a (Zpos d) ltac:(lia)) as Hb.
  assert (Hf : a / Zpos d <= n) by (apply Z.div_le_upper_bound; lia).
  assert (Hr : 0 < a mod Zpos d -> a / Zpos d + 1 <= n) by nia.
  destruct (Z.compare_spec (2 * (a mod Zpos d)) (Zpos d)); try lia.
  destruct (Z.even _); lia.
Qed.

Lemma round_half_even_nonneg (q : Q) : (0 <= q)%Q -> 0 <= round_half_even q.
Proof.
  intros Hq. pose proof (round_half_even_floor q).
  assert (0 <= Qnum q / Zpos (Qden q)); [|lia].
  apply Z.div_pos; [|lia]. unfold Qle in Hq. simpl in Hq. lia.
Qed.

Lemma sample_size_le frac n : (frac <= 1)%Q -> (sample_size frac n <= n)%nat.
Proof.
  intros Hf. unfold sample_size.
  assert (round_half_even (frac * inject_Z (Z.of_nat n)) <= Z.of_nat n); [|lia].
  apply round_half_even_le.
  assert (0 <= inject_Z (Z.of_nat n))%Q by (unfold Qle; simpl; lia).
  nra.
Qed.

Lemma sample_size_empty frac : sample_size frac 0 = 0%nat.
Proof.
  unfold sample_size, round_half_even. simpl.
  rewrite Z.mul_0_r. reflexivity.
Qed.

Lemma df_sample_spec l rows frac replace w :
  heap w !! l = Some rows ->
  (0 <= frac)%Q -> (replace = false -> (frac <= 1)%Q) ->
  wp (df_sample l frac replace)
     (fun l' w' => exists positions sampled,
        l' = length (heap w) /\ reach [sampled] [] w w' /\
        length positions = sample_size frac (length rows) /\
        rows_at rows positions sampled /\
        (replace = false -> NoDup positions)) w.
Proof.
  intros Hl H0 H1. unfold df_sample.
  apply wp_bind. eapply wp_df_rows; [exact Hl|].
  rewrite (proj2 (Qle_bool_iff 0 frac) H0). simpl.
  assert (Hfin : forall positions w1,
            steps w w1 -> length positions = sample_size frac (length rows) ->
            Forall (fun i => (i < length rows)%nat) positions ->
            (replace = false -> NoDup positions) ->
            wp (let! sampled := take_rows rows positions in df_new sampled)
               (fun l' w' => exists positions sampled,
                  l' = length (heap w) /\ reach [sampled] [] w w' /\
                  length positions = sample_size frac (length rows) /\
                  rows_at rows positions sampled /\
                  (replace = false -> NoDup positions)) w1).
  { intros positions w1 Hs Hlen Hall Hnd. apply wp_bind.
    apply take_rows_spec; [exact Hall|]. intros sampled Hat.
    apply wp_df_new. intros w2 Hr _. exists positions, sampled.
    rewrite (steps_heap _ _ Hs). split_and!; auto.
    apply (reach_trans [] [] [sampled] [] w w1 w2); auto using steps_reach. }
  destruct replace; simpl.
  - apply wp_bind. eapply wp_mono.
    + apply np_choice_replace_spec.
      destruct (length rows); [right; apply sample_size_empty | left; lia].
    + simpl. intros ps w1 (Hlen & Hall & Hs). apply Hfin; auto. discriminate.
  - rewrite (proj2 (Qle_bool_iff frac 1) (H1 eq_refl)). simpl.
    apply wp_bind. eapply wp_mono.
    + apply np_choice_noreplace_spec, sample_size_le, H1. reflexivity.
    + simpl. intros ps w1 (Hlen & Hnd & Hall & Hs). apply Hfin; auto.
Qed.

(** ** The whole run *)

(** The whole run, for any property [P] the inner loop body gives the
    records of a day. *)
Lemma generate_sample_data_gen (P : Z -> UsageRecord -> Prop) w :
  (forall day acc w1,
     wp (sample_call (clock_now w - timedelta 30 0 0 + timedelta day 0 0) acc)
        (fun acc' w' => exists r, acc' = acc ++ [r] /\ steps w1 w' /\ P day r)
        w1) ->
  wp generate_sample_data
     (fun sample_df w' => exists d ext,
        sample_df = length (heap w) /\
        reach ext (output_files d) w w' /\
        heap w' !! sample_df = Some (base d) /\
        (exists groups,
           base d = concat groups /\ groups_ok 5 50 P (range 30) groups) /\
        (exists positions,
           rows_at (base d) positions (heavy d) /\
           length positions = sample_size 2 (length (base d))) /\
        (exists positions,
           rows_at (base d) positions (light d) /\
           length positions = sample_size (3 # 10) (length (base d)) /\
           NoDup positions) /\
        (exists start end_ groups,
           burst d = base d ++ concat groups /\
           groups_ok 50 100 burst_ok
             (date_range (start - timedelta 30 0 0) end_ (3 * DAY)) groups) /\
        (exists expensive efficient,
           cost d = base d ++ expensive ++ efficient /\
           length expensive = 200%nat /\ length efficient = 300%nat /\
           Forall expensive_rec expensive /\ Forall efficient_rec efficient)) w.
Proof.
  intros Hcall. unfold generate_sample_data.
  apply wp_bind, wp_now. intros w1 Hs1.
  apply wp_bind. eapply wp_mono.
  { apply (wp_windows 5 50 P
             (fun day => sample_call
                (clock_now w - timedelta 30 0 0 + timedelta day 0 0)));
      [lia | exact Hcall]. }
  cbv beta. intros ? w2 (groups & -> & Hg & Hs2). rewrite app_nil_l.
  set (rows := concat groups) in *.
  rchain. pose proof (reach_length _ _ _ _ Hr) as Hlen2. simpl in Hlen2.
  apply wp_bind, wp_df_new. intros w3 Hr3 _. rchain.
  assert (Hdf : forall ext files w', reach (rows :: ext) files w w' ->
                heap w' !! length (heap w2) = Some rows).
  { intros ext files w' H.
    eapply (reach_lookup_at _ _ w w' 0); [exact H | reflexivity | lia]. }
  apply wp_bind. eapply wp_to_csv; [eapply Hdf; eassumption|]. intros w4 Hr4. rchain.
  (* heavy *)
  apply wp_bind. eapply wp_mono.
  { eapply (df_sample_spec _ rows 2 true); [eapply Hdf; eassumption| |discriminate].
    unfold Qle; simpl; lia. }
  cbv beta. intros heavy_df w5 (hpos & heavy_rows & -> & Hr5 & Hhlen & Hhat & _).
  pose proof (reach_length _ _ _ _ Hr) as Hlen4. simpl in Hlen4. rchain.
  (* light *)
  apply wp_bind. eapply wp_mono.
  { eapply (df_sample_spec _ rows (3 # 10) false); [eapply Hdf; eassumption| |].
    - unfold Qle; simpl; lia.
    - intros _. unfold Qle; simpl; lia. }
  cbv beta. intros light_df w6 (lpos & light_rows & -> & Hr6 & Hllen & Hlat & Hlnd).
  pose proof (reach_length _ _ _ _ Hr0) as Hlen5. simpl in Hlen5. rchain.
  (* burst *)
  apply wp_bind. eapply wp_mono.
  { eapply (generate_burst_pattern_spec _ rows). eapply Hdf; eassumption. }
  cbv beta. intros burst_df w7 (e & bgroups & -> & Hr7 & _ & Hbg).
  pose proof (reach_length _ _ _ _ Hr) as Hlen6. simpl in Hlen6. rchain.
  (* cost *)
  apply wp_bind. eapply wp_mono.
  { eapply (generate_cost_focused_data_spec _ _ rows). eapply Hdf; eassumption. }
  cbv beta.
  intros cost_df w8 (expensive & efficient & -> & Hr8 & Hl1 & Hl2 & Hexp & Heff & _).
  pose proof (reach_length _ _ _ _ Hr0) as Hlen7. simpl in Hlen7. rchain.
  (* the scenario files *)
  cbn [for_each]. apply wp_bind.
  apply wp_bind. eapply wp_to_csv.
  { eapply (reach_lookup_at _ _ w w8 1); [eassumption | reflexivity | lia]. }
  intros w9 Hr9. rchain.
  apply wp_bind. eapply wp_to_csv.
  { eapply (reach_lookup_at _ _ w w9 2); [eassumption | reflexivity | lia]. }
  intros w10 Hr10. rchain.
  apply wp_bind. eapply wp_to_csv.
  { eapply (reach_lookup_at _ _ w w10 5); [eassumption | reflexivity | lia]. }
  intros w11 Hr11. rchain.
  apply wp_bind. eapply wp_to_csv.
  { eapply (reach_lookup_at _ _ w w11 8); [eassumption | reflexivity | lia]. }
  intros w12 Hr12. rchain.
  apply wp_ret, wp_ret.
  exists (mkDatasets rows heavy_rows light_rows (rows ++ concat bgroups)
                     (rows ++ expensive ++ efficient)).
  eexists. simpl. split_and!.
  - lia.
  - eassumption.
  - eapply Hdf; eassumption.
  - eauto.
  - eauto.
  - eauto.
  - eauto 6.
  - eauto 10.
Qed.

Lemma generate_sample_data_spec w :
  wp generate_sample_data
     (fun sample_df w' => exists d,
        heap w' !! sample_df = Some (base d) /\
        written w' = written w ++ output_files d /\
        run_facts w d) w.
Proof.
  eapply wp_mono.
  - apply (generate_sample_data_gen (fun _ => base_ok) w).
    intros; apply sample_call_spec.
  - simpl. intros l w' (d & ext & _ & Hr & Hl & H1 & H2 & H3 & H4 & H5).
    exists d. split_and!; [exact Hl | apply (reach_written _ _ _ _ Hr) |].
    constructor; assumption.
Qed.

Lemma generates_total w : exists d, generates w d /\ run_facts w d.
Proof.
  destruct (proj1 (wp_ok _ _ _) (generate_sample_data_spec w))
    as (l & w' & Hrun & d & Hl & Hw & Hd).
  exists d. split; [|exact Hd]. exists l, w'. auto.
Qed.

Lemma generates_run w d : generates w d -> run_datasets w = Some d.
Proof.
  intros (l & w' & Hrun & _ & Hw). unfold run_datasets.
  rewrite Hrun, Hw, drop_app_length. destruct d; reflexivity.
Qed.

Lemma generates_det w d1 d2 : generates w d1 -> generates w d2 -> d1 = d2.
Proof.
  intros H1%generates_run H2%generates_run. congruence.
Qed.

Lemma rows_at_elem rows positions out r :
  rows_at rows positions out -> r ∈ out -> r ∈ rows.
Proof.
  intros Hat Hr. apply list_elem_of_lookup in Hr as [i Hi].
  destruct (Forall2_lookup_r _ _ _ _ _ Hat Hi) as (p & _ & Hp).
  eapply list_elem_of_lookup_2, Hp.
Qed.

Lemma rows_at_Forall (P : UsageRecord -> Prop) rows positions out :
  rows_at rows positions out -> Forall P rows -> Forall P out.
Proof.
  intros Hat Hall. apply Forall_forall. intros r Hr.
  eapply (proj1 (Forall_forall P rows) Hall), rows_at_elem; eauto.
Qed.

Lemma base_rows_ok w d : run_facts w d -> Forall base_ok (base d).
Proof.
  intros [(groups & -> & Hg) _ _ _ _].
  destruct (groups_ok_length _ _ _ _ _ Hg) as (_ & _ & _ & _ & Hall).
  eapply Forall_impl; [exact Hall|]. simpl. intros r (_ & _ & ?). assumption.
Qed.

Lemma burst_groups_ok start end_ groups :
  groups_ok 50 100 burst_ok (date_range start end_ (3 * DAY)) groups ->
  Forall (fun r => exists t, burst_ok t r) (concat groups).
Proof.
  intros Hg. destruct (groups_ok_length _ _ _ _ _ Hg) as (_ & _ & _ & _ & Hall).
  eapply Forall_impl; [exact Hall|]. simpl. intros r (t & _ & ?). eauto.
Qed.

Lemma appended_app (rows extra : DataFrame) :
  appended (length rows) (rows ++ extra) = extra.
Proof. apply drop_app_length. Qed.

(** * Properties of the generated tables *)

(** The base table and the two resampled tables respect the catalog: the
    model is drawn from the list of the provider drawn before it. *)
Lemma catalog_ok_base_heavy_light w :
  exists d, generates w d /\
    Forall (fun r => catalog_ok r = true) (base d) /\
    Forall (fun r => catalog_ok r = true) (heavy d) /\
    Forall (fun r => catalog_ok r = true) (light d).
Proof.
  destruct (generates_total w) as (d & Hgen & Hd). exists d. split; [exact Hgen|].
  assert (Hbase : Forall (fun r => catalog_ok r = true) (base d)).
  { eapply Forall_impl; [apply (base_rows_ok w d Hd)|].
    simpl. intros r [? _]. assumption. }
  destruct Hd as [_ (hp & Hh & _) (lp & Hl & _) _ _].
  split_and!; eauto using rows_at_Forall.
Qed.

(** C1 (the code departs from the claim): in the run of [mismatch_world]
    the first record appended by the burst derivation names provider
    OpenAI with model claude-3-opus, which the catalog lists under
    Anthropic only; provider and model are drawn independently there. *)
Theorem C1_burst_record_outside_catalog :
  exists d r,
    generates mismatch_world d /\
    burst d !! 150%nat = Some r /\
    provider_name r = "OpenAI" /\ model_name r = "claude-3-opus" /\
    catalog_ok r = false.
Proof.
  destruct (generates_total mismatch_world) as (d & Hgen & _).
  pose proof (generates_run _ _ Hgen) as Hrun.
  assert (Hev : option_map
            (fun d => option_map
               (fun r => (provider_name r, model_name r, catalog_ok r))
               (burst d !! 150%nat))
            (run_datasets mismatch_world)
          = Some (Some ("OpenAI", "claude-3-opus", false)))
    by (vm_compute; reflexivity).
  rewrite Hrun in Hev. simpl in Hev.
  destruct (burst d !! 150%nat) as [r|] eqn:Hr; [|discriminate].
  exists d, r. simpl in Hev. injection Hev as H1 H2 H3. auto.
Qed.

(** The part of the burst derivation that holds: the base rows first, then
    one group of 50 to 100 records per window, in window order. *)
Lemma burst_structure w d :
  generates w d ->
  exists start end_ groups,
    burst d = base d ++ concat groups /\
    groups_ok 50 100 burst_ok
      (date_range (start - timedelta 30 0 0) end_ (3 * DAY)) groups /\
    Z.of_nat (length (burst d))
      = Z.of_nat (length (base d))
        + sum_list_Z (map (fun g => Z.of_nat (length g)) groups).
Proof.
  intros Hgen. destruct (generates_total w) as (d' & Hgen' & Hd).
  rewrite (generates_det _ _ _ Hgen Hgen').
  destruct Hd as [_ _ _ (start & end_ & groups & Hb & Hg) _].
  exists start, end_, groups. split_and!; auto.
  destruct (groups_ok_length _ _ _ _ _ Hg) as (_ & Hsum & _).
  rewrite Hb, length_app. lia.
Qed.

(** C2 (the code departs from the claim): in the run of [mismatch_world]
    the first appended burst record carries the pair OpenAI/claude-3-opus,
    which is neither OpenAI/gpt-4 nor Anthropic/claude-3-opus. *)
Theorem C2_burst_record_not_a_heavy_pair :
  exists d r,
    generates mismatch_world d /\
    appended (length (base d)) (burst d) !! 0%nat = Some r /\
    heavy_pair r = false.
Proof.
  destruct (generates_total mismatch_world) as (d & Hgen & _).
  pose proof (generates_run _ _ Hgen) as Hrun.
  assert (Hev : option_map
            (fun d => option_map heavy_pair
               (appended (length (base d)) (burst d) !! 0%nat))
            (run_datasets mismatch_world)
          = Some (Some false))
    by (vm_compute; reflexivity).
  rewrite Hrun in Hev. simpl in Hev.
  destruct (appended (length (base d)) (burst d) !! 0%nat) as [r|] eqn:Hr;
    [|discriminate].
  exists d, r. simpl in Hev. injection Hev as H1. auto.
Qed.

Lemma sample_size_double n : sample_size 2 n = (2 * n)%nat.
Proof.
  unfold sample_size, round_half_even. simpl.
  rewrite Z.mod_1_r, Z.div_1_r. simpl. lia.
Qed.

(** C3: for a base table of N rows, the heavy table has 2 * N rows, each
    the base row at a drawn position (positions may repeat); the light
    table has round(0.3 * N) rows, the base rows at pairwise different
    positions, so each is a member of the base table. *)
Theorem C3_heavy_and_light_sizes w sample_df rows :
  heap w !! sample_df = Some rows ->
  (exists l' w' positions sampled,
     heavy_usage sample_df w = Ok (l', w') /\
     heap w' !! l' = Some sampled /\
     rows_at rows positions sampled /\
     length sampled = (2 * length rows)%nat) /\
  (exists l' w' positions sampled,
     light_usage sample_df w = Ok (l', w') /\
     heap w' !! l' = Some sampled /\
     rows_at rows positions sampled /\
     NoDup positions /\
     Forall (fun r => r ∈ rows) sampled /\
     Z.of_nat (length sampled)
       = round_half_even ((3 # 10) * inject_Z (Z.of_nat (length rows)))).
Proof.
  intros Hl. split.
  - destruct (proj1 (wp_ok _ _ _)
               (df_sample_spec sample_df rows 2 true w Hl
                  ltac:(unfold Qle; simpl; lia) ltac:(discriminate)))
      as (l' & w' & Hrun & ps & out & -> & Hr & Hlen & Hat & _).
    exists (length (heap w)), w', ps, out. split_and!; auto.
    + eapply (reach_lookup_at _ _ w w' 0); [exact Hr | reflexivity | lia].
    + rewrite <- (Forall2_length _ _ _ Hat), Hlen. apply sample_size_double.
  - destruct (proj1 (wp_ok _ _ _)
               (df_sample_spec sample_df rows (3 # 10) false w Hl
                  ltac:(unfold Qle; simpl; lia)
                  ltac:(intros _; unfold Qle; simpl; lia)))
      as (l' & w' & Hrun & ps & out & -> & Hr & Hlen & Hat & Hnd).
    exists (length (heap w)), w', ps, out. split_and!; auto.
    + eapply (reach_lookup_at _ _ w w' 0); [exact Hr | reflexivity | lia].
    + apply Forall_forall. intros r. apply (rows_at_elem _ _ _ _ Hat).
    + rewrite <- (Forall2_length _ _ _ Hat), Hlen. unfold sample_size.
      apply Z2Nat.id, round_half_even_nonneg.
      assert (0 <= inject_Z (Z.of_nat (length rows)))%Q
        by (unfold Qle; simpl; lia).
      nra.
Qed.

Lemma C3_heavy_and_light_sizes_witness :
  (exists l' w' positions sampled,
     heavy_usage 0%nat small_world = Ok (l', w') /\
     heap w' !! l' = Some sampled /\
     rows_at three_rows positions sampled /\
     length sampled = (2 * length three_rows)%nat) /\
  (exists l' w' positions sampled,
     light_usage 0%nat small_world = Ok (l', w') /\
     heap w' !! l' = Some sampled /\
     rows_at three_rows positions sampled /\
     NoDup positions /\
     Forall (fun r => r ∈ three_rows) sampled /\
     Z.of_nat (length sampled)
       = round_half_even ((3 # 10) * inject_Z (Z.of_nat (length three_rows)))).
Proof. apply (C3_heavy_and_light_sizes small_world 0%nat three_rows). reflexivity. Defined.

(** C4: every base record has input_tokens in [50, 2000] and output_tokens
    in [20, 800]; every record the burst derivation appends has
    input_tokens in [500, 3000] and output_tokens in [200, 1500]. *)
Theorem C4_token_ranges w :
  exists d, generates w d /\
    Forall (fun r => tokens_in r 50 2000 20 800) (base d) /\
    Forall (fun r => tokens_in r 500 3000 200 1500)
           (appended (length (base d)) (burst d)).
Proof.
  destruct (generates_total w) as (d & Hgen & Hd). exists d.
  split; [exact Hgen|]. split.
  - eapply Forall_impl; [apply (base_rows_ok w d Hd)|].
    simpl. intros r (_ & ? & _). assumption.
  - destruct Hd as [_ _ _ (start & end_ & groups & -> & Hg) _].
    rewrite appended_app.
    eapply Forall_impl; [apply (burst_groups_ok _ _ _ Hg)|].
    simpl. intros r (t & _ & _ & ? & _). assumption.
Qed.

(** C5, as the spec words it, fails.  In the run of [costly_world] the
    first record appended by the cost-focused derivation is stamped 30
    days and 1 hour before the (stopped) clock, outside the trailing 30
    days, and names OpenAI, which is not the costliest provider of the
    catalog; the first cheap-tier record names Google, which is not among
    the two cheapest providers, with command-light, a model the catalog
    lists under Cohere only. *)
Lemma C5_claim_fails_in_costly_run :
  exists d r1 r2,
    generates costly_world d /\
    appended (length (base d)) (cost d) !! 0%nat = Some r1 /\
    timestamp r1 < clock_now costly_world - timedelta 30 0 0 /\
    provider_name r1 = "OpenAI" /\ costliest (provider_name r1) = false /\
    appended (length (base d)) (cost d) !! 200%nat = Some r2 /\
    provider_name r2 = "Google" /\ model_name r2 = "command-light" /\
    among_two_cheapest (provider_name r2) = false /\
    catalog_ok r2 = false.
Proof.
  destruct (generates_total costly_world) as (d & Hgen & _).
  pose proof (generates_run _ _ Hgen) as Hrun.
  assert (Hev : option_map
            (fun d =>
               (option_map
                  (fun r => (timestamp r <? clock_now costly_world
                                            - timedelta 30 0 0,
                             provider_name r, costliest (provider_name r)))
                  (appended (length (base d)) (cost d) !! 0%nat),
                option_map
                  (fun r => (provider_name r, model_name r,
                             among_two_cheapest (provider_name r),
                             catalog_ok r))
                  (appended (length (base d)) (cost d) !! 200%nat)))
            (run_datasets costly_world)
          = Some (Some (true, "OpenAI", false),
                  Some ("Google", "command-light", false, false)))
    by (vm_compute; reflexivity).
  rewrite Hrun in Hev. simpl in Hev.
  destruct (appended (length (base d)) (cost d) !! 0%nat) as [r1|] eqn:Hr1;
    [|discriminate].
  destruct (appended (length (base d)) (cost d) !! 200%nat) as [r2|] eqn:Hr2;
    [|discriminate].
  exists d, r1, r2. simpl in Hev. injection Hev as H1 H2 H3 H4 H5 H6 H7.
  apply Z.ltb_lt in H1. split_and!; auto.
Qed.

(** C5 (amended): the cost-focused table is the base table followed by
    exactly 500 appended records, first 200 records that all name the
    pair OpenAI/gpt-4, then 300 records whose provider is Google or
    Cohere; the function reads the clock once per record, and the
    timestamp of the [k]-th appended record lies between 30 days 23 hours
    59 minutes and 1 day before the [k]-th reading. *)
Theorem C5_cost_focused_structure w base_df rows providers :
  heap w !! base_df = Some rows ->
  exists l' w' expensive efficient,
    generate_cost_focused_data base_df providers w = Ok (l', w') /\
    heap w' !! l' = Some (rows ++ expensive ++ efficient) /\
    length expensive = 200%nat /\ length efficient = 300%nat /\
    Forall (fun r => provider_name r = "OpenAI" /\ model_name r = "gpt-4")
           expensive /\
    Forall (fun r => provider_name r ∈ ["Google"; "Cohere"]) efficient /\
    forall k r, (expensive ++ efficient) !! k = Some r ->
                reading w k - timedelta 30 23 59 <= timestamp r
                  <= reading w k - timedelta 1 0 0.
Proof.
  intros Hl.
  destruct (proj1 (wp_ok _ _ _)
             (generate_cost_focused_data_readings base_df providers rows w Hl))
    as (l' & w' & Hrun & expensive & efficient & -> & Hr & Hl1 & Hl2
        & Hexp & Heff & Hts).
  exists (length (heap w) + 2)%nat, w', expensive, efficient.
  split_and!; auto.
  - eapply (reach_lookup_at _ _ w w' 2); [exact Hr | reflexivity | lia].
  - eapply Forall_impl; [exact Hexp|]. simpl. intros r (? & ? & _). auto.
  - eapply Forall_impl; [exact Heff|]. simpl. intros r (? & _). auto.
Qed.

Lemma C5_cost_focused_structure_witness :
  exists l' w' expensive efficient,
    generate_cost_focused_data 0%nat providers_data small_world = Ok (l', w') /\
    heap w' !! l' = Some (three_rows ++ expensive ++ efficient) /\
    length expensive = 200%nat /\ length efficient = 300%nat /\
    Forall (fun r => provider_name r = "OpenAI" /\ model_name r = "gpt-4")
           expensive /\
    Forall (fun r => provider_name r ∈ ["Google"; "Cohere"]) efficient /\
    forall k r, (expensive ++ efficient) !! k = Some r ->
                reading small_world k - timedelta 30 23 59 <= timestamp r
                  <= reading small_world k - timedelta 1 0 0.
Proof.
  apply (C5_cost_focused_structure small_world 0%nat three_rows providers_data).
  reflexivity.
Defined.

(** C6: in each of the five tables of a run every response_time is a
    positive multiple of 1/100. *)
Theorem C6_response_time_positive_two_decimals w :
  exists d, generates w d /\
    Forall (Forall (fun r => two_decimals_pos (response_time r)))
           (all_datasets d).
Proof.
  destruct (generates_total w) as (d & Hgen & Hd). exists d.
  split; [exact Hgen|].
  assert (Hbase : Forall (fun r => two_decimals_pos (response_time r)) (base d)).
  { eapply Forall_impl; [apply (base_rows_ok w d Hd)|].
    simpl. intros r (_ & _ & ?). assumption. }
  destruct Hd as [_ (hp & Hh & _) (lp & Hl & _)
                    (start & end_ & groups & Hb & Hg)
                    (expensive & efficient & Hc & _ & _ & Hexp & Heff)].
  unfold all_datasets. repeat constructor.
  - exact Hbase.
  - eapply rows_at_Forall; eassumption.
  - eapply rows_at_Forall; eassumption.
  - rewrite Hb. apply Forall_app. split; [exact Hbase|].
    eapply Forall_impl; [apply (burst_groups_ok _ _ _ Hg)|].
    simpl. intros r (t & _ & _ & _ & ? & _). assumption.
  - rewrite Hc. rewrite !Forall_app. split_and!; [exact Hbase | |].
    + eapply Forall_impl; [exact Hexp|]. simpl. intros r (_ & _ & _ & ?). assumption.
    + eapply Forall_impl; [exact Heff|]. simpl. intros r (_ & _ & _ & ?). assumption.
Qed.


Lemma rows_at_nil positions sampled :
  rows_at [] positions sampled -> sampled = [].
Proof.
  destruct 1 as [|i r ps out Hi _]; [reflexivity|]. discriminate.
Qed.

(** C8: on a base table of 0 rows the heavy and the light derivation both
    return a table of 0 rows and raise nothing. *)
Theorem C8_empty_base w sample_df :
  heap w !! sample_df = Some [] ->
  (exists l' w', heavy_usage sample_df w = Ok (l', w') /\ heap w' !! l' = Some []) /\
  (exists l' w', light_usage sample_df w = Ok (l', w') /\ heap w' !! l' = Some []).
Proof.
  intros Hl.
  assert (Hnil : forall positions sampled,
            length positions = 0%nat -> rows_at [] positions sampled ->
            sampled = []).
  { intros ps out _ Hat. exact (rows_at_nil _ _ Hat). }
  split.
  - destruct (proj1 (wp_ok _ _ _)
               (df_sample_spec sample_df [] 2 true w Hl
                  ltac:(unfold Qle; simpl; lia) ltac:(discriminate)))
      as (l' & w' & Hrun & ps & out & -> & Hr & Hlen & Hat & _).
    rewrite sample_size_empty in Hlen. rewrite (Hnil ps out Hlen Hat) in Hr.
    exists (length (heap w)), w'. split; [exact Hrun|].
    eapply (reach_lookup_at _ _ w w' 0); [exact Hr | reflexivity | lia].
  - destruct (proj1 (wp_ok _ _ _)
               (df_sample_spec sample_df [] (3 # 10) false w Hl
                  ltac:(unfold Qle; simpl; lia)
                  ltac:(intros _; unfold Qle; simpl; lia)))
      as (l' & w' & Hrun & ps & out & -> & Hr & Hlen & Hat & _).
    rewrite sample_size_empty in Hlen. rewrite (Hnil ps out Hlen Hat) in Hr.
    exists (length (heap w)), w'. split; [exact Hrun|].
    eapply (reach_lookup_at _ _ w w' 0); [exact Hr | reflexivity | lia].
Qed.

Lemma C8_empty_base_witness :
  (exists l' w', heavy_usage 0%nat empty_world = Ok (l', w') /\
                 heap w' !! l' = Some []) /\
  (exists l' w', light_usage 0%nat empty_world = Ok (l', w') /\
                 heap w' !! l' = Some []).
Proof. apply (C8_empty_base empty_world 0%nat). reflexivity. Defined.

(** A derivation that allocates the copy, the appended records and the
    concatenation leaves every frame that existed before as it was. *)
Lemma derivation_frame w w' base_df rows extra :
  heap w !! base_df = Some rows ->
  reach [rows; extra; rows ++ extra] [] w w' ->
  heap w' !! base_df = Some rows /\
  (forall l df, heap w !! l = Some df -> heap w' !! l = Some df) /\
  heap w' !! (length (heap w) + 2)%nat = Some (rows ++ extra) /\
  take (length rows) (rows ++ extra) = rows /\
  (length (heap w) + 2)%nat <> base_df.
Proof.
  intros Hl Hr. split_and!.
  - eapply reach_lookup_old; eauto.
  - intros l df. eapply reach_lookup_old; eauto.
  - eapply (reach_lookup_at _ _ w w' 2); [exact Hr | reflexivity | lia].
  - apply take_app_length.
  - apply lookup_lt_Some in Hl. unfold loc, DataFrame in *. lia.
Qed.

(** C10: the burst and the cost-focused derivation leave the base table
    (and every other frame) unchanged and return a new frame whose first
    N rows are the base rows in their order. *)
Theorem C10_derivations_preserve_base w base_df rows providers :
  heap w !! base_df = Some rows ->
  (exists l' w' out,
     generate_burst_pattern base_df w = Ok (l', w') /\
     heap w' !! base_df = Some rows /\
     (forall l df, heap w !! l = Some df -> heap w' !! l = Some df) /\
     heap w' !! l' = Some out /\
     take (length rows) out = rows /\
     l' <> base_df) /\
  (exists l' w' out,
     generate_cost_focused_data base_df providers w = Ok (l', w') /\
     heap w' !! base_df = Some rows /\
     (forall l df, heap w !! l = Some df -> heap w' !! l = Some df) /\
     heap w' !! l' = Some out /\
     take (length rows) out = rows /\
     l' <> base_df).
Proof.
  intros Hl. split.
  - destruct (proj1 (wp_ok _ _ _) (generate_burst_pattern_spec base_df rows w Hl))
      as (l' & w' & Hrun & e & groups & -> & Hr & _).
    destruct (derivation_frame _ _ _ _ _ Hl Hr) as (? & ? & ? & ? & ?).
    exists (length (heap w) + 2)%nat, w', (rows ++ concat groups).
    split_and!; assumption.
  - destruct (proj1 (wp_ok _ _ _)
               (generate_cost_focused_data_spec base_df providers rows w Hl))
      as (l' & w' & Hrun & expensive & efficient & -> & Hr & _).
    destruct (derivation_frame _ _ _ _ _ Hl Hr) as (? & ? & ? & ? & ?).
    exists (length (heap w) + 2)%nat, w', (rows ++ expensive ++ efficient).
    split_and!; assumption.
Qed.

Lemma C10_derivations_preserve_base_witness :
  (exists l' w' out,
     generate_burst_pattern 0%nat small_world = Ok (l', w') /\
     heap w' !! 0%nat = Some three_rows /\
     (forall l df, heap small_world !! l = Some df -> heap w' !! l = Some df) /\
     heap w' !! l' = Some out /\
     take (length three_rows) out = three_rows /\
     l' <> 0%nat) /\
  (exists l' w' out,
     generate_cost_focused_data 0%nat providers_data small_world = Ok (l', w') /\
     heap w' !! 0%nat = Some three_rows /\
     (forall l df, heap small_world !! l = Some df -> heap w' !! l = Some df) /\
     heap w' !! l' = Some out /\
     take (length three_rows) out = three_rows /\
     l' <> 0%nat).
Proof.
  apply (C10_derivations_preserve_base small_world 0%nat three_rows providers_data).
  reflexivity.
Defined.

(** ** What the output depends on *)

Section Independence.

Variables pre1 pre2 : list (string * DataFrame).

Lemma rel_ret {A} R (a1 a2 : A) (Q : A -> A -> World -> World -> Prop) :
  (forall w1 w2, R w1 w2 -> Q a1 a2 w1 w2) -> rel R (ret a1) (ret a2) Q.
Proof. intros H w1 w2 HR. simpl. auto. Qed.

Lemma keep_ret {A} (R : World -> World -> Prop) (a : A) :
  rel R (ret a) (ret a) (both R).
Proof. apply rel_ret. intros w1 w2 H. split; auto. Qed.

Lemma rel_raise {A} R e (Q : A -> A -> World -> World -> Prop) :
  rel R (raise e) (raise e) Q.
Proof. intros w1 w2 _. reflexivity. Qed.

Lemma rel_bind {A B} R (m1 m2 : M A) (f1 f2 : A -> M B) Q Q' :
  rel R m1 m2 Q -> (forall a1 a2, rel (Q a1 a2) (f1 a1) (f2 a2) Q') ->
  rel R (bind m1 f1) (bind m2 f2) Q'.
Proof.
  intros Hm Hf w1 w2 HR. specialize (Hm w1 w2 HR). unfold bind.
  destruct (m1 w1) as [[a1 w1']|e1], (m2 w2) as [[a2 w2']|e2]; try tauto.
  apply (Hf a1 a2), Hm.
Qed.

Lemma keep_bind {A B} R (m1 m2 : M A) (f1 f2 : A -> M B) Q :
  rel R m1 m2 (both R) -> (forall a, rel R (f1 a) (f2 a) Q) ->
  rel R (bind m1 f1) (bind m2 f2) Q.
Proof.
  intros Hm Hf. apply (rel_bind R m1 m2 f1 f2 (both R) Q Hm).
  intros a1 a2 w1 w2 [-> HR]. apply Hf, HR.
Qed.

Lemma rel_conseq {A} (R : World -> World -> Prop) (m1 m2 : M A)
      (Q Q' : A -> A -> World -> World -> Prop) :
  rel R m1 m2 Q -> (forall a1 a2 w1 w2, Q a1 a2 w1 w2 -> Q' a1 a2 w1 w2) ->
  rel R m1 m2 Q'.
Proof.
  intros Hm HQ w1 w2 H. specialize (Hm w1 w2 H).
  destruct (m1 w1) as [[a1 w1']|e1], (m2 w2) as [[a2 w2']|e2]; auto.
Qed.

Lemma rel_for_each {X S} R (xs : list X) (body1 body2 : X -> S -> M S) s :
  (forall x s, rel R (body1 x s) (body2 x s) (both R)) ->
  rel R (for_each xs body1 s) (for_each xs body2 s) (both R).
Proof.
  intros Hbody. revert s. induction xs as [|x xs IH]; intros s; simpl.
  - apply keep_ret.
  - apply keep_bind; [apply Hbody|]. intros s'. apply IH.
Qed.

Lemma frozen_tl ticks : frozen ticks -> hd 0 ticks = 0 /\ frozen (tl ticks).
Proof.
  unfold frozen. destruct ticks as [|d ticks]; simpl; intros H.
  - split; [reflexivity | constructor].
  - inversion H; subst; auto.
Qed.

Lemma akin_weaken np same valid same' valid' w1 w2 :
  (forall p, p ∈ same' -> p ∈ same) ->
  (forall p, p ∈ valid' -> p ∈ valid) ->
  akin np same valid pre1 pre2 w1 w2 -> akin np same' valid' pre1 pre2 w1 w2.
Proof. intros Hs Hv [Hpy Hnp Hsame Hvalid Hn Hf1 Hf2 Hw]. split; auto. Qed.

(** A frame stays where it is when another is allocated. *)
Lemma lookup_alloc (h : list DataFrame) (l : loc) rows new :
  h !! l = Some rows -> (h ++ [new]) !! l = Some rows.
Proof. intros H. apply lookup_app_l_Some, H. Qed.

Lemma is_Some_alloc (h : list DataFrame) (l : loc) new :
  is_Some (h !! l) -> is_Some ((h ++ [new]) !! l).
Proof. intros [rows H]. exists rows. apply lookup_alloc, H. Qed.

Lemma lookup_new (h : list DataFrame) new : (h ++ [new]) !! length h = Some new.
Proof. apply list_lookup_middle. reflexivity. Qed.

(** *** The primitives *)

Lemma keep_draw_py np same valid :
  rel (akin np same valid pre1 pre2) draw_py draw_py
      (both (akin np same valid pre1 pre2)).
Proof.
  intros w1 w2 [Hpy Hnp Hsame Hvalid Hn Hf1 Hf2 Hw]. simpl.
  split; [congruence|]. split; simpl; first [assumption | congruence].
Qed.

Lemma keep_draw_np same valid :
  rel (akin true same valid pre1 pre2) draw_np draw_np
      (both (akin true same valid pre1 pre2)).
Proof.
  intros w1 w2 [Hpy Hnp Hsame Hvalid Hn Hf1 Hf2 Hw]. simpl.
  specialize (Hnp eq_refl).
  split; [congruence|]. split; simpl; try assumption. intros _. congruence.
Qed.

Lemma keep_now np same valid :
  rel (akin np same valid pre1 pre2) now now
      (both (akin np same valid pre1 pre2)).
Proof.
  intros w1 w2 [Hpy Hnp Hsame Hvalid Hn Hf1 Hf2 Hw]. simpl.
  destruct (frozen_tl _ Hf1) as [-> ?]. destruct (frozen_tl _ Hf2) as [-> ?].
  split; [assumption|]. split; simpl; try assumption. lia.
Qed.

Lemma rel_df_new np same valid rows :
  rel (akin np same valid pre1 pre2) (df_new rows) (df_new rows)
      (fun a1 a2 => akin np ((a1, a2) :: same) valid pre1 pre2).
Proof.
  intros w1 w2 [Hpy Hnp Hsame Hvalid Hn Hf1 Hf2 Hw]. simpl.
  split; simpl; try assumption.
  - intros l1 l2 Hl. apply elem_of_cons in Hl as [[= -> ->]|Hl].
    + exists rows. split; apply lookup_new.
    + destruct (Hsame l1 l2 Hl) as (r & H1 & H2).
      exists r. split; apply lookup_alloc; assumption.
  - intros l1 l2 Hl. destruct (Hvalid l1 l2 Hl).
    split; apply is_Some_alloc; assumption.
Qed.

Lemma keep_df_rows np same valid l1 l2 :
  (l1, l2) ∈ same ->
  rel (akin np same valid pre1 pre2) (df_rows l1) (df_rows l2)
      (both (akin np same valid pre1 pre2)).
Proof.
  intros Hl w1 w2 H. unfold df_rows.
  destruct (akin_same _ _ _ _ _ _ _ H l1 l2 Hl) as (rows & H1 & H2).
  unfold loc, DataFrame in *. rewrite H1, H2. split; auto.
Qed.

Lemma keep_log_write np same valid path rows :
  rel (akin np same valid pre1 pre2)
      (fun w => Ok (tt, mkWorld (py_rng w) (np_rng w) (clock_now w)
                                (clock_ticks w) (heap w)
                                (written w ++ [(path, rows)])))
      (fun w => Ok (tt, mkWorld (py_rng w) (np_rng w) (clock_now w)
                                (clock_ticks w) (heap w)
                                (written w ++ [(path, rows)])))
      (both (akin np same valid pre1 pre2)).
Proof.
  intros w1 w2 [Hpy Hnp Hsame Hvalid Hn Hf1 Hf2 (f1 & f2 & Hw1 & Hw2 & Hff)].
  simpl. split; [reflexivity|]. split; simpl; try assumption.
  exists (f1 ++ [(path, rows)]), (f2 ++ [(path, rows)]).
  rewrite Hw1, Hw2, !app_assoc. split_and!; auto.
  apply Forall2_app; [assumption|]. constructor; [|constructor].
  split; auto.
Qed.

Lemma keep_to_csv np same valid l1 l2 path :
  (l1, l2) ∈ same ->
  rel (akin np same valid pre1 pre2) (to_csv l1 path) (to_csv l2 path)
      (both (akin np same valid pre1 pre2)).
Proof.
  intros Hl. unfold to_csv. apply keep_bind; [apply keep_df_rows, Hl|].
  intros rows. apply keep_log_write.
Qed.

(** A resampled table may differ between the runs; its file is written
    all the same. *)
Lemma keep_to_csv_resampled same valid l1 l2 path :
  (l1, l2) ∈ valid ->
  path ∈ resampled_paths ->
  rel (akin false same valid pre1 pre2) (to_csv l1 path) (to_csv l2 path)
      (both (akin false same valid pre1 pre2)).
Proof.
  intros Hl Hp w1 w2
         [Hpy Hnp Hsame Hvalid Hn Hf1 Hf2 (f1 & f2 & Hw1 & Hw2 & Hff)].
  destruct (Hvalid l1 l2 Hl) as [[r1 E1] [r2 E2]].
  unfold to_csv, bind, df_rows. unfold loc, DataFrame in *. rewrite E1, E2.
  split; [reflexivity|]. split; simpl; try assumption.
  exists (f1 ++ [(path, r1)]), (f2 ++ [(path, r2)]).
  rewrite Hw1, Hw2, !app_assoc. split_and!; auto.
  apply Forall2_app; [assumption|]. constructor; [|constructor].
  split; [reflexivity|]. simpl. intros [?|?]; [discriminate | contradiction].
Qed.

Lemma rel_df_copy np same valid l1 l2 :
  (l1, l2) ∈ same ->
  rel (akin np same valid pre1 pre2) (df_copy l1) (df_copy l2)
      (fun a1 a2 => akin np ((a1, a2) :: same) valid pre1 pre2).
Proof.
  intros Hl. unfold df_copy. apply keep_bind; [apply keep_df_rows, Hl|].
  intros rows. apply rel_df_new.
Qed.

Lemma rel_pd_concat2 np same valid a1 b1 a2 b2 :
  (a1, a2) ∈ same -> (b1, b2) ∈ same ->
  rel (akin np same valid pre1 pre2) (pd_concat [a1; b1]) (pd_concat [a2; b2])
      (fun c1 c2 => akin np ((c1, c2) :: same) valid pre1 pre2).
Proof.
  intros Ha Hb. unfold pd_concat. cbn [for_each].
  apply keep_bind; [|intros rows; apply rel_df_new].
  apply keep_bind.
  - apply keep_bind; [apply keep_df_rows, Ha|]. intros r. apply keep_ret.
  - intros acc. apply keep_bind; [|intros acc'; apply keep_ret].
    apply keep_bind; [apply keep_df_rows, Hb|]. intros r. apply keep_ret.
Qed.

End Independence.

Ltac rel_go :=
  repeat lazymatch goal with
  | |- rel _ (ret _) (ret _) _ => apply keep_ret
  | |- rel _ (raise _) (raise _) _ => apply rel_raise
  | |- rel _ (bind _ _) (bind _ _) _ => apply keep_bind; [|intros ?]
  | |- rel _ (for_each _ _ _) (for_each _ _ _) _ =>
      apply rel_for_each; intros ? ?
  | |- rel _ draw_py draw_py _ => apply keep_draw_py
  | |- rel (akin true _ _ _ _) draw_np draw_np _ => apply keep_draw_np
  | |- rel _ now now _ => apply keep_now
  | |- rel _ (match ?x with _ => _ end) (match ?x with _ => _ end) _ =>
      destruct x
  end.

Section Generators.

Variables pre1 pre2 : list (string * DataFrame).

Lemma keep_randint np same valid a b :
  rel (akin np same valid pre1 pre2) (randint a b) (randint a b)
      (both (akin np same valid pre1 pre2)).
Proof. unfold randint. rel_go. Qed.

Lemma keep_choice {A} np same valid (l : list A) :
  rel (akin np same valid pre1 pre2) (choice l) (choice l)
      (both (akin np same valid pre1 pre2)).
Proof. unfold choice. rel_go. Qed.

Lemma keep_random np same valid :
  rel (akin np same valid pre1 pre2) random random
      (both (akin np same valid pre1 pre2)).
Proof. unfold random. rel_go. Qed.

Lemma keep_uniform np same valid a b :
  rel (akin np same valid pre1 pre2) (uniform a b) (uniform a b)
      (both (akin np same valid pre1 pre2)).
Proof. unfold uniform. rel_go. apply keep_random. Qed.

Lemma keep_choices {A} np same valid (population : list A) weights :
  rel (akin np same valid pre1 pre2)
      (choices population weights) (choices population weights)
      (both (akin np same valid pre1 pre2)).
Proof. unfold choices. rel_go; apply keep_random. Qed.

Ltac rel_all :=
  repeat first
    [ progress rel_go
    | apply keep_randint | apply keep_choice | apply keep_uniform
    | apply keep_choices ].

Lemma keep_sample_day np same valid start_date day acc :
  rel (akin np same valid pre1 pre2)
      (sample_day start_date day acc) (sample_day start_date day acc)
      (both (akin np same valid pre1 pre2)).
Proof. unfold sample_day, sample_call. rel_all. Qed.

Lemma keep_burst_window np same valid burst_time acc :
  rel (akin np same valid pre1 pre2)
      (burst_window burst_time acc) (burst_window burst_time acc)
      (both (akin np same valid pre1 pre2)).
Proof. unfold burst_window, burst_call. rel_all. Qed.

Lemma keep_expensive_call np same valid acc :
  rel (akin np same valid pre1 pre2) (expensive_call acc) (expensive_call acc)
      (both (akin np same valid pre1 pre2)).
Proof. unfold expensive_call. rel_all. Qed.

Lemma keep_efficient_call np same valid acc :
  rel (akin np same valid pre1 pre2) (efficient_call acc) (efficient_call acc)
      (both (akin np same valid pre1 pre2)).
Proof. unfold efficient_call. rel_all. Qed.

(** The burst derivations of two frames that hold the same rows return
    frames that hold the same rows. *)
Lemma rel_generate_burst_pattern np same valid b1 b2 :
  (b1, b2) ∈ same ->
  rel (akin np same valid pre1 pre2)
      (generate_burst_pattern b1) (generate_burst_pattern b2)
      (fun a1 a2 => akin np ((a1, a2) :: same) valid pre1 pre2).
Proof.
  intros Hl. unfold generate_burst_pattern.
  eapply rel_bind; [apply (rel_df_copy _ _ np same valid b1 b2 Hl)|].
  intros d1 d2. cbv beta.
  apply keep_bind; [apply keep_now|]. intros start.
  apply keep_bind; [apply keep_now|]. intros end_.
  apply keep_bind;
    [apply rel_for_each; intros; apply keep_burst_window|].
  intros additional_data.
  eapply rel_bind; [apply rel_df_new|]. intros f1 f2. cbv beta.
  eapply rel_conseq.
  - apply rel_pd_concat2; set_solver.
  - cbv beta. intros a1 a2 w1 w2. apply akin_weaken; set_solver.
Qed.

Lemma rel_generate_cost_focused_data np same valid b1 b2 providers :
  (b1, b2) ∈ same ->
  rel (akin np same valid pre1 pre2)
      (generate_cost_focused_data b1 providers)
      (generate_cost_focused_data b2 providers)
      (fun a1 a2 => akin np ((a1, a2) :: same) valid pre1 pre2).
Proof.
  intros Hl. unfold generate_cost_focused_data.
  eapply rel_bind; [apply (rel_df_copy _ _ np same valid b1 b2 Hl)|].
  intros d1 d2. cbv beta.
  apply keep_bind;
    [apply rel_for_each; intros; apply keep_expensive_call|].
  intros expensive_data.
  apply keep_bind;
    [apply rel_for_each; intros; apply keep_efficient_call|].
  intros expensive_data'.
  eapply rel_bind; [apply rel_df_new|]. intros f1 f2. cbv beta.
  eapply rel_conseq.
  - apply rel_pd_concat2; set_solver.
  - cbv beta. intros a1 a2 w1 w2. apply akin_weaken; set_solver.
Qed.

(** With NumPy's generator in the same state, the samples of two frames
    that hold the same rows hold the same rows. *)
Lemma rel_df_sample_np same valid l1 l2 frac replace :
  (l1, l2) ∈ same ->
  rel (akin true same valid pre1 pre2)
      (df_sample l1 frac replace) (df_sample l2 frac replace)
      (fun a1 a2 => akin true ((a1, a2) :: same) valid pre1 pre2).
Proof.
  intros Hl. unfold df_sample.
  apply keep_bind; [apply keep_df_rows, Hl|]. intros rows.
  destruct (negb (Qle_bool 0 frac)); [apply rel_raise|].
  destruct (negb replace && negb (Qle_bool frac 1)); [apply rel_raise|].
  cbv zeta.
  apply keep_bind; [unfold np_choice, np_permutation; rel_go|].
  intros positions.
  apply keep_bind; [unfold take_rows; rel_go|]. intros sampled.
  apply rel_df_new.
Qed.

(** Whatever the states of NumPy's generator, both samples return, each a
    new frame of its own; nothing else changes. *)
Lemma rel_df_sample_py same valid l1 l2 frac replace :
  (l1, l2) ∈ same ->
  (0 <= frac)%Q -> (replace = false -> (frac <= 1)%Q) ->
  rel (akin false same valid pre1 pre2)
      (df_sample l1 frac replace) (df_sample l2 frac replace)
      (fun a1 a2 => akin false same ((a1, a2) :: valid) pre1 pre2).
Proof.
  intros Hl H0 H1 w1 w2 [Hpy Hnp Hsame Hvalid Hn Hf1 Hf2 Hw].
  destruct (Hsame l1 l2 Hl) as (rows & Hrows1 & Hrows2).
  destruct (proj1 (wp_ok _ _ _)
              (df_sample_spec l1 rows frac replace w1 Hrows1 H0 H1))
    as (a1 & w1' & Hrun1 & ps1 & s1 & -> & Hr1 & _).
  destruct (proj1 (wp_ok _ _ _)
              (df_sample_spec l2 rows frac replace w2 Hrows2 H0 H1))
    as (a2 & w2' & Hrun2 & ps2 & s2 & -> & Hr2 & _).
  pose proof (keeps_df_sample l1 frac replace w1) as Hk1.
  pose proof (keeps_df_sample l2 frac replace w2) as Hk2.
  rewrite Hrun1 in Hk1. rewrite Hrun2 in Hk2. unfold python_side in Hk1, Hk2.
  injection Hk1 as Hp1 Hn1 Ht1 Hw1. injection Hk2 as Hp2 Hn2 Ht2 Hw2.
  rewrite Hrun1, Hrun2.
  pose proof (reach_heap _ _ _ _ Hr1) as Hh1.
  pose proof (reach_heap _ _ _ _ Hr2) as Hh2.
  split.
  - congruence.
  - intros; discriminate.
  - intros k1 k2 Hk. destruct (Hsame k1 k2 Hk) as (r & E1 & E2).
    exists r. rewrite Hh1, Hh2. split; apply lookup_alloc; assumption.
  - intros k1 k2 Hk. rewrite Hh1, Hh2.
    apply elem_of_cons in Hk as [[= -> ->]|Hk].
    + split; eexists; apply lookup_new.
    + destruct (Hvalid k1 k2 Hk). split; apply is_Some_alloc; assumption.
  - congruence.
  - rewrite Ht1. exact Hf1.
  - rewrite Ht2. exact Hf2.
  - rewrite Hw1, Hw2. exact Hw.
Qed.

Lemma rel_df_sample np same valid l1 l2 frac replace :
  (l1, l2) ∈ same ->
  (0 <= frac)%Q -> (replace = false -> (frac <= 1)%Q) ->
  rel (akin np same valid pre1 pre2)
      (df_sample l1 frac replace) (df_sample l2 frac replace)
      (fun a1 a2 => akin np (same_after np (a1, a2) same)
                            (valid_after np (a1, a2) valid) pre1 pre2).
Proof.
  intros Hl H0 H1. destruct np; simpl.
  - apply rel_df_sample_np, Hl.
  - apply rel_df_sample_py; assumption.
Qed.

(** The whole run: the files written are the same, the resampled tables
    left out when NumPy's generator is not known to be in the same
    state. *)
Lemma rel_generate_sample_data np :
  rel (akin np [] [] pre1 pre2) generate_sample_data generate_sample_data
      (fun _ _ w1 w2 => exists same valid, akin np same valid pre1 pre2 w1 w2).
Proof.
  unfold generate_sample_data, heavy_usage, light_usage.
  apply keep_bind; [apply keep_now|]. intros t.
  apply keep_bind; [apply rel_for_each; intros; apply keep_sample_day|].
  intros sample_data.
  eapply rel_bind; [apply rel_df_new|]. intros s1 s2. cbv beta.
  apply keep_bind; [apply keep_to_csv; set_solver|]. intros _.
  eapply rel_bind.
  { apply (rel_df_sample np [(s1, s2)] [] s1 s2 2 true);
      [set_solver | unfold Qle; simpl; lia | discriminate]. }
  intros h1 h2. cbv beta.
  eapply rel_bind.
  { apply (rel_df_sample np _ _ s1 s2 (3 # 10) false);
      [destruct np; set_solver | unfold Qle; simpl; lia
       | intros _; unfold Qle; simpl; lia]. }
  intros l1 l2. cbv beta.
  eapply rel_bind.
  { apply (rel_generate_burst_pattern np _ _ s1 s2).
    destruct np; set_solver. }
  intros b1 b2. cbv beta.
  eapply rel_bind.
  { apply (rel_generate_cost_focused_data np _ _ s1 s2).
    destruct np; set_solver. }
  intros c1 c2. cbv beta zeta. cbn [for_each]. cbv beta iota.
  apply keep_bind; [|intros ?; apply rel_ret; eauto].
  destruct np; simpl same_after; simpl valid_after.
  - repeat (apply keep_bind; [apply keep_to_csv; set_solver | intros ?]).
    apply keep_ret.
  - apply keep_bind;
      [apply keep_to_csv_resampled; [|unfold resampled_paths]; set_solver
      | intros ?].
    apply keep_bind;
      [apply keep_to_csv_resampled; [|unfold resampled_paths]; set_solver
      | intros ?].
    repeat (apply keep_bind; [apply keep_to_csv; set_solver | intros ?]).
    apply keep_ret.
Qed.

End Generators.

Lemma same_files_py d1 d2 :
  Forall2 (same_file false) (output_files d1) (output_files d2) ->
  base d1 = base d2 /\ burst d1 = burst d2 /\ cost d1 = cost d2.
Proof.
  unfold output_files. intros H.
  apply Forall2_cons in H as [[_ Hb] H].
  apply Forall2_cons in H as [_ H].
  apply Forall2_cons in H as [_ H].
  apply Forall2_cons in H as [[_ Hbu] H].
  apply Forall2_cons in H as [[_ Hc] _].
  simpl in Hb, Hbu, Hc.
  split_and!; [apply Hb | apply Hbu | apply Hc]; right;
    apply (bool_decide_unpack _); vm_compute; exact I.
Qed.

Lemma same_files_all d1 d2 :
  Forall2 (same_file true) (output_files d1) (output_files d2) -> d1 = d2.
Proof.
  unfold output_files. intros H.
  apply Forall2_cons in H as [[_ Hb] H].
  apply Forall2_cons in H as [[_ Hh] H].
  apply Forall2_cons in H as [[_ Hl] H].
  apply Forall2_cons in H as [[_ Hbu] H].
  apply Forall2_cons in H as [[_ Hc] _].
  simpl in *. destruct d1, d2. simpl in *.
  rewrite (Hb (or_introl eq_refl)), (Hh (or_introl eq_refl)),
    (Hl (or_introl eq_refl)), (Hbu (or_introl eq_refl)),
    (Hc (or_introl eq_refl)). reflexivity.
Qed.

(** Two runs from worlds that are akin write files that are the same. *)
Lemma runs_write_same_files np w1 w2 d1 d2 :
  py_rng w1 = py_rng w2 ->
  (np = true -> np_rng w1 = np_rng w2) ->
  clock_now w1 = clock_now w2 ->
  frozen (clock_ticks w1) -> frozen (clock_ticks w2) ->
  generates w1 d1 -> generates w2 d2 ->
  Forall2 (same_file np) (output_files d1) (output_files d2).
Proof.
  intros Hpy Hnp Hn Hf1 Hf2 (l1 & w1' & Hrun1 & _ & Hw1)
         (l2 & w2' & Hrun2 & _ & Hw2).
  assert (Hakin : akin np [] [] (written w1) (written w2) w1 w2).
  { split; [exact Hpy | exact Hnp | intros k1 k2 Hk; inversion Hk
           | intros k1 k2 Hk; inversion Hk | exact Hn | exact Hf1 | exact Hf2 |].
    exists [], []. rewrite !app_nil_r. split_and!; auto. }
  pose proof (rel_generate_sample_data _ _ np w1 w2 Hakin) as Hrel.
  rewrite Hrun1, Hrun2 in Hrel. destruct Hrel as (same & valid & Hal).
  destruct (akin_written _ _ _ _ _ _ _ Hal) as (f1 & f2 & Hf1' & Hf2' & Hff).
  rewrite Hw1 in Hf1'. rewrite Hw2 in Hf2'.
  apply app_inv_head in Hf1', Hf2'. subst f1 f2. exact Hff.
Qed.

(** C9, as the spec words it, fails: [quiet_world] and [resampled_world]
    hold the same state of Python's generator and clocks stopped at the
    same reading, and differ in the state of NumPy's generator only; the
    heavy tables of the two runs differ. *)
Lemma C9_python_seed_alone_is_not_enough :
  py_rng quiet_world = py_rng resampled_world /\
  clock_now quiet_world = clock_now resampled_world /\
  frozen (clock_ticks quiet_world) /\ frozen (clock_ticks resampled_world) /\
  exists d1 d2,
    generates quiet_world d1 /\ generates resampled_world d2 /\
    heavy d1 <> heavy d2.
Proof.
  split_and!; try reflexivity; try (apply Forall_nil; exact I).
  destruct (generates_total quiet_world) as (d1 & Hg1 & _).
  destruct (generates_total resampled_world) as (d2 & Hg2 & _).
  exists d1, d2. split_and!; [exact Hg1 | exact Hg2 |].
  pose proof (generates_run _ _ Hg1) as Hrun1.
  pose proof (generates_run _ _ Hg2) as Hrun2.
  assert (Hev : match run_datasets quiet_world, run_datasets resampled_world with
                | Some e1, Some e2 =>
                    match heavy e1 !! 0%nat, heavy e2 !! 0%nat with
                    | Some r1, Some r2 => negb (timestamp r1 =? timestamp r2)
                    | _, _ => false
                    end
                | _, _ => false
                end = true)
    by (vm_compute; reflexivity).
  rewrite Hrun1, Hrun2 in Hev. intros Heq. rewrite Heq in Hev.
  destruct (heavy d2 !! 0%nat) as [r|]; [|discriminate].
  rewrite Z.eqb_refl in Hev. discriminate.
Qed.

(** C9 (amended): two runs with Python's generator in the same state, on
    clocks stopped at the same reading (whatever the states of NumPy's
    generator, whatever either process wrote before and whatever frames
    it holds), write the same base, burst and cost-focused tables; when
    NumPy's generator too is in the same state they write the same five
    tables. *)
Theorem C9_deterministic_given_seed_and_clock w1 w2 :
  py_rng w1 = py_rng w2 ->
  clock_now w1 = clock_now w2 ->
  frozen (clock_ticks w1) ->
  frozen (clock_ticks w2) ->
  exists d1 d2,
    generates w1 d1 /\ generates w2 d2 /\
    base d1 = base d2 /\ burst d1 = burst d2 /\ cost d1 = cost d2 /\
    (np_rng w1 = np_rng w2 -> d1 = d2).
Proof.
  intros Hpy Hn Hf1 Hf2.
  destruct (generates_total w1) as (d1 & Hg1 & _).
  destruct (generates_total w2) as (d2 & Hg2 & _).
  exists d1, d2.
  assert (Hlow : base d1 = base d2 /\ burst d1 = burst d2 /\ cost d1 = cost d2).
  { apply same_files_py.
    apply (runs_write_same_files false w1 w2); auto. discriminate. }
  destruct Hlow as (Hb & Hbu & Hc). split_and!; auto.
  intros Hnp. apply same_files_all.
  apply (runs_write_same_files true w1 w2); auto.
Qed.

Lemma C9_deterministic_given_seed_and_clock_witness :
  exists d1 d2,
    generates quiet_world d1 /\ generates second_world d2 /\
    base d1 = base d2 /\ burst d1 = burst d2 /\ cost d1 = cost d2 /\
    (np_rng quiet_world = np_rng second_world -> d1 = d2).
Proof.
  apply (C9_deterministic_given_seed_and_clock quiet_world second_world);
    try reflexivity.
  - apply Forall_nil. exact I.
  - repeat (apply Forall_cons; split; [reflexivity|]). apply Forall_nil. exact I.
Defined.

(** * Further properties of the generators *)

Lemma round_half_even_ge (q : Q) (n : Z) :
  (inject_Z n <= q)%Q -> n <= round_half_even q.
Proof.
  intros Hq. pose proof (round_half_even_floor q) as Hf.
  assert (n <= Qnum q / Zpos (Qden q)); [|lia].
  apply Z.div_le_lower_bound; [lia|].
  unfold Qle in Hq. simpl in Hq. lia.
Qed.

(** Rounding to two decimals keeps a value between two bounds that have
    two decimals themselves. *)
Lemma round2_between (a b : Z) (x : Q) :
  between (a # 100) (b # 100) x -> between (a # 100) (b # 100) (round2 x).
Proof.
  intros [Ha Hb]. unfold between, round2.
  assert (H1 : a <= round_half_even (x * 100)).
  { apply round_half_even_ge. unfold Qle in *. destruct x as [n d].
    simpl in *. lia. }
  assert (H2 : round_half_even (x * 100) <= b).
  { apply round_half_even_le. unfold Qle in *. destruct x as [n d].
    simpl in *. lia. }
  unfold Qle; simpl. lia.
Qed.

Lemma elem_of_range x n : x ∈ range n -> 0 <= x < n.
Proof.
  unfold range. intros H. apply list_elem_of_fmap in H as (k & -> & Hk).
  apply elem_of_seq in Hk. lia.
Qed.

Lemma replace_hms_on_day dt h m s r :
  0 <= h <= 23 -> 0 <= m <= 59 -> 0 <= s <= 59 ->
  timestamp r = replace_hms dt h m s -> on_day dt r.
Proof.
  intros Hh Hm Hs Hts. unfold on_day, day_start. rewrite Hts.
  unfold replace_hms.
  pose proof (Z.mod_pos_bound dt SECOND eq_refl) as Hb.
  split.
  - set (q := dt / DAY) in *. set (u := dt mod SECOND) in *.
    unfold DAY, HOUR, MINUTE, SECOND in *. lia.
  - replace (dt / DAY * DAY + h * HOUR + m * MINUTE + s * SECOND + dt mod SECOND)
      with (dt mod SECOND
            + (dt / DAY * 86400 + h * 3600 + m * 60 + s) * SECOND)
      by (unfold DAY, HOUR, MINUTE; ring).
    rewrite Z.mod_add by discriminate. apply Z.mod_mod. discriminate.
Qed.

Lemma sample_call_full current_date acc w :
  wp (sample_call current_date acc)
     (fun acc' w' => exists r,
        acc' = acc ++ [r] /\ steps w w' /\ base_full current_date r) w.
Proof.
  unfold sample_call. apply wp_bind.
  apply (wp_choices (range 24) hour_weights 98); try reflexivity.
  intros hour w1 Hhour Hs. apply elem_of_range in Hhour. wp_go.
  destruct (dict_get_keys providers_data x) as [entry Hentry]; [assumption|].
  rewrite Hentry.
  assert (Hmodels : models entry <> []).
  { eapply catalog_models_nonempty, dict_get_values, Hentry. }
  apply wp_bind, wp_choice; [exact Hmodels|]. intros model w2 Hmodel Hs2. chain.
  wp_go.
  assert (Hrt : forall f wf (lo hi : Z),
            steps w wf ->
            (4 # 5 <= f)%Q ->
            between (lo # 100) (hi # 100) (v3 * f) ->
            (if heavy_tier model
             then (lo, hi) = (75, 750) else (lo, hi) = (40, 360)) ->
            wp (ret (acc ++ [mkRecord x model v1 v2 (round2 (v3 * f))
                                      (replace_hms current_date hour v v0)]))
               (fun acc' w' => exists r,
                  acc' = acc ++ [r] /\ steps w w' /\ base_full current_date r)
               wf).
  { intros f wf lo hi Hs' Hf Hbt Htier. apply wp_ret.
    eexists; split; [reflexivity|]. split; [exact Hs'|]. split_and!.
    - split_and!.
      + unfold catalog_ok; cbn [provider_name model_name].
        rewrite Hentry. apply existsb_eqb_elem, Hmodel.
      + unfold tokens_in; simpl; lia.
      + apply round2_pos. nra.
    - eapply replace_hms_on_day; [| | |reflexivity]; lia.
    - unfold base_response_ok; cbn [model_name response_time].
      apply round2_between in Hbt.
      destruct (heavy_tier model); injection Htier as -> ->; exact Hbt. }
  fold (heavy_tier model). destruct (heavy_tier model) eqn:Htier.
  - wp_go. apply (Hrt _ _ 75 750); [assumption | lra | | reflexivity].
    split; unfold Qle in *; simpl in *; nia.
  - wp_go. apply (Hrt _ _ 40 360); [assumption | lra | | reflexivity].
    split; unfold Qle in *; simpl in *; nia.
Qed.

Ltac round_bounds a b :=
  lazymatch goal with
  | |- between _ _ (round2 ?x) =>
      let Hlo := fresh "Hlo" in
      let Hhi := fresh "Hhi" in
      destruct (round2_between a b x) as [Hlo Hhi]; [split; lra|];
      split; unfold Qle in *; simpl in *; lia
  end.

Lemma burst_call_full burst_time acc w :
  wp (burst_call burst_time acc)
     (fun acc' w' => exists r,
        acc' = acc ++ [r] /\ steps w w' /\ burst_full burst_time r) w.
Proof.
  unfold burst_call. wp_go.
  eexists; split; [reflexivity|]. split; [assumption|]. split.
  - unfold burst_ok, tokens_in, timedelta, MINUTE, SECOND; simpl.
    split_and!; try assumption; try lia.
    apply round2_pos. lra.
  - simpl. round_bounds 200 800.
Qed.

Lemma expensive_call_full acc w :
  wp (expensive_call acc)
     (fun acc' w' => exists r,
        acc' = acc ++ [r] /\ steps w w' /\ expensive_full r) w.
Proof.
  unfold expensive_call. wp_go.
  eexists; split; [reflexivity|]. split; [assumption|]. split.
  - unfold expensive_rec, tokens_in; simpl. split_and!; try reflexivity; try lia.
    apply round2_pos. lra.
  - simpl. round_bounds 300 1000.
Qed.

Lemma efficient_call_full acc w :
  wp (efficient_call acc)
     (fun acc' w' => exists r,
        acc' = acc ++ [r] /\ steps w w' /\ efficient_full r) w.
Proof.
  unfold efficient_call. wp_go.
  eexists; split; [reflexivity|]. split; [assumption|]. split.
  - unfold efficient_rec, tokens_in; simpl. split_and!; try assumption; try lia.
    apply round2_pos. lra.
  - simpl. round_bounds 50 200.
Qed.

(** The run with everything the base loop gives its records, and the
    frame of the heap. *)
Lemma generates_full w :
  exists d groups w',
    generate_sample_data w = Ok (length (heap w), w') /\
    heap w' !! length (heap w) = Some (base d) /\
    written w' = written w ++ output_files d /\
    base d = concat groups /\
    groups_ok 5 50
      (fun day => base_full (clock_now w - timedelta 30 0 0 + timedelta day 0 0))
      (range 30) groups /\
    (forall l df, heap w !! l = Some df -> heap w' !! l = Some df).
Proof.
  destruct (proj1 (wp_ok _ _ _)
             (generate_sample_data_gen
                (fun day => base_full
                   (clock_now w - timedelta 30 0 0 + timedelta day 0 0)) w
                ltac:(intros; apply sample_call_full)))
    as (l & w' & Hrun & d & ext & -> & Hr & Hl & (groups & Hb & Hg) & _).
  exists d, groups, w'. split_and!; try assumption.
  - apply (reach_written _ _ _ _ Hr).
  - intros l df Hdf. eapply reach_lookup_old; eauto.
Qed.


Lemma day_start_shift dt k : day_start (dt + k * DAY) = day_start dt + k * DAY.
Proof.
  unfold day_start. rewrite Z.div_add by discriminate. ring.
Qed.

(** X2: the base table is the concatenation of 30 groups in day order;
    the records of group [day] are stamped on the calendar day of
    [now - 30 days + day] (with the sub-second part of [now]), so every
    base timestamp falls on one of the 30 calendar days before the day of
    the clock reading, none on that day itself. *)
Theorem base_timestamps_by_day w :
  exists d groups,
    generates w d /\
    base d = concat groups /\
    Forall2 (fun day g =>
               Forall (on_day (clock_now w - timedelta 30 0 0
                               + timedelta day 0 0)) g)
            (range 30) groups /\
    Forall (fun r => day_start (clock_now w) - 30 * DAY <= timestamp r
                     < day_start (clock_now w)) (base d).
Proof.
  destruct (generates_full w) as (d & groups & w' & Hrun & Hl & Hw & Hb & Hg & _).
  exists d, groups. split_and!.
  - exists (length (heap w)), w'. auto.
  - exact Hb.
  - eapply Forall2_impl; [exact Hg|]. simpl. intros day g [_ Hall].
    eapply Forall_impl; [exact Hall|]. simpl. intros r (_ & ? & _). assumption.
  - rewrite Hb.
    destruct (groups_ok_length _ _ _ _ _ Hg) as (_ & _ & _ & _ & Hall).
    eapply Forall_impl; [exact Hall|]. simpl.
    intros r (day & Hday & _ & [[Hlo Hhi] _] & _).
    apply elem_of_range in Hday.
    replace (clock_now w - timedelta 30 0 0 + timedelta day 0 0)
      with (clock_now w + (day - 30) * DAY) in Hlo, Hhi
      by (unfold timedelta; ring).
    rewrite day_start_shift in Hlo, Hhi. unfold DAY, HOUR, MINUTE, SECOND in *.
    lia.
Qed.

(** X3: a base record whose model name contains gpt-4 or claude-3-opus
    (gpt-4-turbo included) has a response_time in [0.75, 7.50], any other
    one in [0.40, 3.60]; the heavy and the light table inherit this. *)
Theorem base_response_time_by_tier w :
  exists d,
    generates w d /\
    Forall base_response_ok (base d) /\
    Forall base_response_ok (heavy d) /\
    Forall base_response_ok (light d).
Proof.
  destruct (generates_full w) as (d & groups & w' & Hrun & Hl & Hw & Hb & Hg & _).
  assert (Hgen : generates w d) by (exists (length (heap w)), w'; auto).
  exists d. split; [exact Hgen|].
  assert (Hbase : Forall base_response_ok (base d)).
  { rewrite Hb.
    destruct (groups_ok_length _ _ _ _ _ Hg) as (_ & _ & _ & _ & Hall).
    eapply Forall_impl; [exact Hall|]. simpl.
    intros r (day & _ & _ & _ & ?). assumption. }
  destruct (generates_total w) as (d' & Hgen' & Hd).
  rewrite <- (generates_det _ _ _ Hgen Hgen') in Hd.
  destruct Hd as [_ (hp & Hh & _) (lp & Hli & _) _ _].
  split_and!; eauto using rows_at_Forall.
Qed.

Lemma date_range_eleven t d :
  0 <= d < 3 * DAY ->
  date_range (t - timedelta 30 0 0) (t + d) (3 * DAY) = burst_starts t.
Proof.
  intros Hd. unfold date_range, burst_starts.
  replace ((t + d - (t - timedelta 30 0 0)) / (3 * DAY)) with 10; [reflexivity|].
  apply (Z.div_unique _ _ 10 d); [left; exact Hd|].
  unfold timedelta. ring.
Qed.

(** X4: when the clock advances by less than 3 days between the two
    readings of [generate_burst_pattern] (and does not go back), there are
    exactly 11 windows, starting 30, 27, ..., 0 days before the first
    reading; the result is the base rows followed by the windows' records
    in window order, 50 to 100 per window (550 to 1100 in all), each
    stamped within 120 minutes after the start of its window, with tokens
    in [500, 3000] and [200, 1500] and a response_time in [2.00, 8.00]. *)
Theorem burst_windows w base_df rows :
  heap w !! base_df = Some rows ->
  0 <= hd 0 (clock_ticks w) < 3 * DAY ->
  exists l' w' groups,
    generate_burst_pattern base_df w = Ok (l', w') /\
    heap w' !! l' = Some (rows ++ concat groups) /\
    groups_ok 50 100 burst_full (burst_starts (clock_now w)) groups /\
    550 <= Z.of_nat (length (concat groups)) <= 1100.
Proof.
  intros Hl Hd.
  destruct (proj1 (wp_ok _ _ _)
             (generate_burst_pattern_gen burst_full base_df rows w Hl
                ltac:(intros; apply burst_call_full)))
    as (l' & w' & Hrun & groups & -> & Hr & Hg).
  rewrite (date_range_eleven _ _ Hd) in Hg.
  exists (length (heap w) + 2)%nat, w', groups. split_and!; auto.
  - eapply (reach_lookup_at _ _ w w' 2); [exact Hr | reflexivity | lia].
  - destruct (groups_ok_length _ _ _ _ _ Hg) as (_ & _ & _ & Hb & _).
    change (length (burst_starts (clock_now w))) with 11%nat in Hb. lia.
  - destruct (groups_ok_length _ _ _ _ _ Hg) as (_ & _ & _ & Hb & _).
    change (length (burst_starts (clock_now w))) with 11%nat in Hb. lia.
Qed.

Lemma burst_windows_witness :
  exists l' w' groups,
    generate_burst_pattern 0%nat small_world = Ok (l', w') /\
    heap w' !! l' = Some (three_rows ++ concat groups) /\
    groups_ok 50 100 burst_full (burst_starts (clock_now small_world)) groups /\
    550 <= Z.of_nat (length (concat groups)) <= 1100.
Proof.
  apply (burst_windows small_world 0%nat three_rows).
  - reflexivity.
  - vm_compute. split; [discriminate | reflexivity].
Defined.

(** X5: the 200 expensive records of [generate_cost_focused_data] have
    input_tokens in [1000, 4000], output_tokens in [500, 2000] and a
    response_time in [3.00, 10.00]; the 300 efficient ones have
    input_tokens in [100, 800], output_tokens in [50, 300] and a
    response_time in [0.50, 2.00]. *)
Theorem cost_focused_ranges w base_df rows providers :
  heap w !! base_df = Some rows ->
  exists l' w' expensive efficient,
    generate_cost_focused_data base_df providers w = Ok (l', w') /\
    heap w' !! l' = Some (rows ++ expensive ++ efficient) /\
    length expensive = 200%nat /\ length efficient = 300%nat /\
    Forall (fun r => tokens_in r 1000 4000 500 2000 /\
                     between 3 10 (response_time r)) expensive /\
    Forall (fun r => tokens_in r 100 800 50 300 /\
                     between (1 # 2) 2 (response_time r)) efficient.
Proof.
  intros Hl.
  destruct (proj1 (wp_ok _ _ _)
             (generate_cost_focused_data_gen
                (fun _ => expensive_full) (fun _ => efficient_full)
                base_df providers rows w Hl
                ltac:(intros; apply expensive_call_full)
                ltac:(intros; apply efficient_call_full)))
    as (l' & w' & Hrun & w1 & w2 & w3 & expensive & efficient & -> & Hr
        & Hl1 & Hl2 & _ & _ & _ & _ & Hexp & Heff).
  exists (length (heap w) + 2)%nat, w', expensive, efficient.
  split_and!; auto.
  - eapply (reach_lookup_at _ _ w w' 2); [exact Hr | reflexivity | lia].
  - eapply Forall_impl; [exact Hexp|]. simpl.
    intros r (_ & _ & _ & [(_ & _ & ? & _) ?]). auto.
  - eapply Forall_impl; [exact Heff|]. simpl.
    intros r (_ & _ & _ & [(_ & _ & ? & _) ?]). auto.
Qed.

Lemma cost_focused_ranges_witness :
  exists l' w' expensive efficient,
    generate_cost_focused_data 0%nat providers_data small_world = Ok (l', w') /\
    heap w' !! l' = Some (three_rows ++ expensive ++ efficient) /\
    length expensive = 200%nat /\ length efficient = 300%nat /\
    Forall (fun r => tokens_in r 1000 4000 500 2000 /\
                     between 3 10 (response_time r)) expensive /\
    Forall (fun r => tokens_in r 100 800 50 300 /\
                     between (1 # 2) 2 (response_time r)) efficient.
Proof.
  apply (cost_focused_ranges small_world 0%nat three_rows providers_data).
  reflexivity.
Defined.

Lemma NoDup_bounded_length (ps : list nat) n :
  NoDup ps -> Forall (fun i => (i < n)%nat) ps -> (length ps <= n)%nat.
Proof.
  intros Hnd Hall.
  assert (Hsub : ps ⊆+ seq 0 n).
  { apply NoDup_submseteq; [exact Hnd|]. intros i Hi. apply elem_of_seq.
    apply (proj1 (Forall_forall _ _) Hall) in Hi. lia. }
  apply submseteq_length in Hsub. rewrite length_seq in Hsub. exact Hsub.
Qed.

Lemma rows_at_bounded rows positions sampled :
  rows_at rows positions sampled ->
  Forall (fun i => (i < length rows)%nat) positions.
Proof.
  induction 1 as [|i r ps out Hi _ IH]; constructor; [|exact IH].
  eapply lookup_lt_Some, Hi.
Qed.

(** X6: the heavy table of a base table that is not empty takes some base
    row at least twice: its 2 * N positions cannot be pairwise different. *)
Theorem heavy_repeats_a_row w sample_df rows :
  heap w !! sample_df = Some rows ->
  rows <> [] ->
  exists l' w' positions sampled,
    heavy_usage sample_df w = Ok (l', w') /\
    heap w' !! l' = Some sampled /\
    rows_at rows positions sampled /\
    ~ NoDup positions.
Proof.
  intros Hl Hne.
  destruct (proj1 (wp_ok _ _ _)
             (df_sample_spec sample_df rows 2 true w Hl
                ltac:(unfold Qle; simpl; lia) ltac:(discriminate)))
    as (l' & w' & Hrun & ps & out & -> & Hr & Hlen & Hat & _).
  exists (length (heap w)), w', ps, out. split_and!; auto.
  - eapply (reach_lookup_at _ _ w w' 0); [exact Hr | reflexivity | lia].
  - intros Hnd.
    pose proof (NoDup_bounded_length _ _ Hnd (rows_at_bounded _ _ _ Hat)) as Hle.
    rewrite Hlen, sample_size_double in Hle.
    destruct rows; [congruence|]. simpl in Hle. lia.
Qed.

Lemma heavy_repeats_a_row_witness :
  exists l' w' positions sampled,
    heavy_usage 0%nat small_world = Ok (l', w') /\
    heap w' !! l' = Some sampled /\
    rows_at three_rows positions sampled /\
    ~ NoDup positions.
Proof.
  apply (heavy_repeats_a_row small_world 0%nat three_rows).
  - reflexivity.
  - discriminate.
Defined.

(** ** Which part of the world a derivation touches *)

(** X8: in every run the heavy table has twice the rows of the base table
    (300 to 3000), the light table round(0.3 * N) rows (45 to 450) and the
    cost-focused table 500 rows more than the base table (650 to 2000). *)
Theorem table_sizes w :
  exists d,
    generates w d /\
    Z.of_nat (length (heavy d)) = 2 * Z.of_nat (length (base d)) /\
    300 <= Z.of_nat (length (heavy d)) <= 3000 /\
    Z.of_nat (length (light d))
      = round_half_even ((3 # 10) * inject_Z (Z.of_nat (length (base d)))) /\
    45 <= Z.of_nat (length (light d)) <= 450 /\
    Z.of_nat (length (cost d)) = Z.of_nat (length (base d)) + 500 /\
    650 <= Z.of_nat (length (cost d)) <= 2000.
Proof.
  destruct (generates_total w) as (d & Hgen & Hd). exists d.
  split; [exact Hgen|].
  destruct Hd as [(groups & Hb & Hg) (hp & Hh & Hhl) (lp & Hli & Hll & _) _
                    (expensive & efficient & Hc & Hl1 & Hl2 & _)].
  destruct (groups_ok_length _ _ _ _ _ Hg) as (_ & _ & _ & Hbound & _).
  change (length (range 30)) with 30%nat in Hbound. rewrite <- Hb in Hbound.
  set (n := length (base d)) in *.
  assert (Hheavy : Z.of_nat (length (heavy d)) = 2 * Z.of_nat n).
  { rewrite <- (Forall2_length _ _ _ Hh), Hhl, sample_size_double. lia. }
  assert (Hq : (0 <= (3 # 10) * inject_Z (Z.of_nat n))%Q).
  { assert (0 <= inject_Z (Z.of_nat n))%Q by (unfold Qle; simpl; lia). nra. }
  assert (Hlight : Z.of_nat (length (light d))
                   = round_half_even ((3 # 10) * inject_Z (Z.of_nat n))).
  { rewrite <- (Forall2_length _ _ _ Hli), Hll. unfold sample_size.
    apply Z2Nat.id, round_half_even_nonneg, Hq. }
  assert (Hcost : Z.of_nat (length (cost d)) = Z.of_nat n + 500).
  { rewrite Hc, !length_app, Hl1, Hl2. fold n. lia. }
  split_and!; try assumption; try lia.
  - rewrite Hlight. apply round_half_even_ge. unfold Qle; simpl. lia.
  - rewrite Hlight. apply round_half_even_le. unfold Qle; simpl. lia.
Qed.

(** * The scaffolding functions *)



Lemma prefixes_from_length pre p q :
  q ∈ prefixes_from pre p ->
  (length pre < length q <= length pre + length p)%nat.
Proof.
  revert pre. induction p as [|c p IH]; intros pre; simpl; intros Hq.
  - inversion Hq.
  - apply elem_of_cons in Hq as [->|Hq].
    + rewrite length_app. simpl. lia.
    + apply IH in Hq. rewrite length_app in Hq. simpl in Hq. lia.
Qed.

Lemma prefixes_length p q :
  q ∈ prefixes p -> (0 < length q <= length p)%nat.
Proof. intros H. apply (prefixes_from_length [] p q) in H. simpl in H. lia. Qed.

Lemma prefixes_nonempty p q : q ∈ prefixes p -> q <> [].
Proof. intros H%prefixes_length ->. simpl in H. lia. Qed.


Lemma parent_snoc l x : parent (l ++ [x]) = l.
Proof. apply removelast_last. Qed.

Lemma kind_nonempty fs p : p <> [] -> kind fs p = nodes fs !! p.
Proof. destruct p; [congruence | reflexivity]. Qed.




Lemma makedirs_rev_cons tail rhead exist_ok fs :
  makedirs_rev (tail :: rhead) exist_ok fs
  = match
      match kind fs (rev rhead) with
      | None => match makedirs_rev rhead exist_ok fs with
                | Fails FileExistsError => Done fs
                | r => r
                end
      | Some _ => Done fs
      end
    with
    | Fails e => Fails e
    | Done fs1 =>
        match os_mkdir (rev rhead ++ [tail]) fs1 with
        | Done fs2 => Done fs2
        | Fails e =>
            if exist_ok && is_dir fs1 (rev rhead ++ [tail]) then Done fs1
            else Fails e
        end
    end.
Proof.
  simpl. destruct rhead; [reflexivity|]. destruct (kind fs _); reflexivity.
Qed.















Lemma empty_fs_well_formed : well_formed empty_fs.
Proof. intros p n Hp. unfold empty_fs in Hp. simpl in Hp. inversion Hp. Qed.







(** X11: when [aioptima] is a regular file, [create_project_structure]
    raises [FileExistsError]: [exist_ok] only passes over directories. *)
Theorem create_project_structure_file_in_the_way fs content mode :
  nodes fs !! ["aioptima"] = Some (File content mode) ->
  create_project_structure fs = Fails FileExistsError.
Proof.
  intros Hfile. unfold create_project_structure, directories.
  cbn [os_for_each]. unfold makedirs at 1.
  change (rev (split_path "aioptima")) with ["aioptima"].
  rewrite makedirs_rev_cons. cbn [rev app kind].
  unfold os_mkdir, is_dir. cbn [kind]. unfold path in *. rewrite Hfile.
  reflexivity.
Qed.

Lemma create_project_structure_file_in_the_way_witness :
  create_project_structure blocked_fs = Fails FileExistsError.
Proof.
  apply (create_project_structure_file_in_the_way blocked_fs "notes" 420).
  reflexivity.
Defined.

(** ** Configuration files and start scripts *)








Lemma text_at_some files q text :
  text_at files q = Some text -> q ∈ paths_of files.
Proof.
  induction files as [|f files IH]; simpl; intros Hq; [discriminate|].
  case_bool_decide as E; [subst; set_solver|]. apply IH in Hq. set_solver.
Qed.









(** In a well-formed tree nothing lies below a path that is no directory. *)
Lemma child_absent fs p x :
  well_formed fs -> p <> [] -> nodes fs !! p <> Some Dir ->
  nodes fs !! (p ++ [x]) = None.
Proof.
  intros Hwf Hp Hnd. destruct (nodes fs !! (p ++ [x])) as [n|] eqn:E; [|reflexivity].
  destruct (Hwf _ _ E) as [_ Hpar].
  rewrite parent_snoc, (kind_nonempty _ _ Hp) in Hpar. contradiction.
Qed.

Lemma open_write_needs_directory x content fs name :
  well_formed fs ->
  split_path name = ["aioptima"; x] ->
  nodes fs !! ["aioptima"] <> Some Dir ->
  open_write name content fs = Fails (missing_directory_error fs).
Proof.
  intros Hwf Hname Hnd.
  assert (Hk1 : kind fs (split_path name) = None).
  { rewrite Hname.
    apply (child_absent fs ["aioptima"] x Hwf); [discriminate | exact Hnd]. }
  assert (Hk2 : kind fs (parent (split_path name)) = nodes fs !! ["aioptima"]).
  { rewrite Hname. reflexivity. }
  unfold open_write. cbv zeta. rewrite Hk1, Hk2.
  change (missing_directory_error fs)
    with (match nodes fs !! ["aioptima"] with
          | None => FileNotFoundError
          | Some _ => NotADirectoryError
          end).
  destruct (nodes fs !! ["aioptima"]) as [[|c m]|] eqn:E;
    [exfalso; apply Hnd; reflexivity | reflexivity | reflexivity].
Qed.

(** X14: when [aioptima] is not a directory, [create_config_files] and
    [create_startup_scripts] both fail at their first [open]: with
    [NotADirectoryError] if [aioptima] is a regular file, with
    [FileNotFoundError] if it does not exist. *)
Theorem config_and_scripts_need_directory fs :
  well_formed fs ->
  nodes fs !! ["aioptima"] <> Some Dir ->
  create_config_files fs = Fails (missing_directory_error fs) /\
  create_startup_scripts fs = Fails (missing_directory_error fs).
Proof.
  intros Hwf Hnd. unfold create_config_files, create_startup_scripts.
  rewrite (open_write_needs_directory ".env" env_config fs "aioptima/.env" Hwf
             eq_refl Hnd).
  rewrite (open_write_needs_directory "start_backend.sh" start_backend fs
             "aioptima/start_backend.sh" Hwf eq_refl Hnd).
  split; reflexivity.
Qed.

Lemma config_and_scripts_need_directory_witness :
  create_config_files empty_fs = Fails (missing_directory_error empty_fs) /\
  create_startup_scripts empty_fs = Fails (missing_directory_error empty_fs).
Proof.
  apply (config_and_scripts_need_directory empty_fs).
  - exact empty_fs_well_formed.
  - intros H. inversion H.
Defined.



